(** * pg_config.c: build configuration exposed as a set-returning function

    A shallow embedding of [pg_config.c].  The C file keeps a static table
    [ConfigData] of (name, setting) pairs, fills its settings from the
    executable path and from compile-time constants ([get_configdata]) and
    copies the table into a tuplestore ([pg_config]).  Paths are assembled in
    a stack buffer of [MAXPGPATH] bytes with [strcpy], [strrchr] and the
    file's own bounded concatenation [conf_strlcat].

    Memory objects are lists of bytes, pointers into an object are offsets,
    and an access outside the object makes the operation return [None]. *)

From Stdlib.Strings Require Import String Byte.
From Stdlib Require Import List ZArith Lia Bool Arith.
Import ListNotations.

Notation "x <- m ;; k" := (match m with Some x => k | None => None end)
  (at level 61, m at next level, right associativity, only parsing).

(** ** C strings in byte buffers *)

Module CString.

Definition is_nul (c : byte) : bool := Byte.eqb c x00.

(** The bytes of a Rocq string literal. *)
Definition cs (s : string) : list byte := list_byte_of_string s.

(** The object a C string literal (or a char array holding the string [s])
    occupies: the characters followed by the terminator. *)
Definition lit (s : list byte) : list byte := s ++ [x00].

(** A string value that can be stored as a C string. *)
Definition nul_free (s : list byte) : bool := forallb (fun c => negb (is_nul c)) s.

(** The C string that starts at the beginning of [mem]: the bytes before
    the first NUL.  [None] when the object holds no terminator. *)
Fixpoint c_string (mem : list byte) : option (list byte) :=
  match mem with
  | [] => None
  | c :: rest => if is_nul c then Some [] else option_map (cons c) (c_string rest)
  end.

Definition strlen (mem : list byte) : option nat := option_map (@List.length byte) (c_string mem).

(** The assignment [mem[i] = c]. *)
Definition store (mem : list byte) (i : nat) (c : byte) : option (list byte) :=
  if i <? length mem then Some (firstn i mem ++ c :: skipn (S i) mem) else None.

(** [strcpy(dst, src)]: copies the string at [src] with its terminator. *)
Definition strcpy (dst src : list byte) : option (list byte) :=
  s <- c_string src ;;
  if length s <? length dst then Some (s ++ x00 :: skipn (S (length s)) dst) else None.

(** [strrchr(mem, c)] as an offset: the last occurrence of [c] in the string
    at [mem], the terminator included; the inner [None] is the NULL result. *)
Fixpoint strrchr_from (mem : list byte) (c : byte) (i : nat) (last : option nat)
  : option (option nat) :=
  match mem with
  | [] => None
  | b :: rest =>
      let last' := if Byte.eqb b c then Some i else last in
      if is_nul b then Some last' else strrchr_from rest c (S i) last'
  end.

Definition strrchr (mem : list byte) (c : byte) : option (option nat) :=
  strrchr_from mem c 0 None.

(** [pstrdup(mem)]: a fresh copy of the string at [mem]; the copy is
    represented by its contents. *)
Definition pstrdup (mem : list byte) : option (list byte) := c_string mem.

(** Number of leading non-NUL bytes among the first [siz] bytes of [mem]:
    the length [strlcat] attributes to the destination. *)
Fixpoint strnlen (mem : list byte) (siz : nat) : nat :=
  match siz, mem with
  | S siz', c :: rest => if is_nul c then 0 else S (strnlen rest siz')
  | _, _ => 0
  end.

End CString.
Import CString.

(** ** conf_strlcat *)

Section Strlcat.

(** Largest value of [size_t]. *)
Variable SIZE_MAX : Z.

Definition size_t (z : Z) : Z := (z mod (SIZE_MAX + 1))%Z.

(** The scanning loop [while (n-- != 0 && *d != 0) d++;] with [at_d] the memory from [d]
    on.  The value [n] is left with is dead: [n] is assigned anew after the
    loop. *)
Fixpoint find_end (at_d : list byte) (n : Z) (d : nat) : option nat :=
  if (n =? 0)%Z then Some d
  else match at_d with
       | [] => None
       | c :: at_d' => if is_nul c then Some d else find_end at_d' (size_t (n - 1)) (S d)
       end.

(** The copying loop [while ( *s != 0) { if (n != 1) { *d++ = *s; n--; } s++; }] with
    [at_s] the memory from [s] on; returns the buffer, [d] and [s - src]. *)
Fixpoint append (at_s dst : list byte) (d : nat) (n : Z) (s : nat)
  : option (list byte * nat * nat) :=
  match at_s with
  | [] => None
  | c :: at_s' =>
      if is_nul c then Some (dst, d, s)
      else if negb (n =? 1)%Z
           then dst' <- store dst d c ;; append at_s' dst' (S d) (size_t (n - 1)) (S s)
           else append at_s' dst d n (S s)
  end.

Definition conf_strlcat (dst src : list byte) (siz : Z) : option (list byte * Z) :=
  d <- find_end dst siz 0 ;;
  let dlen := Z.of_nat d in
  let n := size_t (siz - dlen) in
  if (n =? 0)%Z
  then slen <- strlen src ;; Some (dst, size_t (dlen + Z.of_nat slen))
  else
    r <- append src dst d n 0 ;;
    let '(dst', d', s) := r in
    dst'' <- store dst' d' x00 ;;
    Some (dst'', size_t (dlen + Z.of_nat s)).

End Strlcat.

(** ** What the file takes from its build and from the server *)

(** Macros and constants of the PostgreSQL headers and of the build. *)
Record Build := {
  MAXPGPATH : nat;                        (* pg_config_manual.h *)
  SIZE_MAX : Z;
  WIN32 : bool;
  TEXTOID : Z;                            (* catalog/pg_type.h *)
  SFRM_Materialize : Z;                   (* nodes/execnodes.h *)
  VAL_CONFIGURE : option (list byte);     (* [None]: the macro is not defined *)
  VAL_CC : option (list byte);
  VAL_CPPFLAGS : option (list byte);
  VAL_CFLAGS : option (list byte);
  VAL_CFLAGS_SL : option (list byte);
  VAL_LDFLAGS : option (list byte);
  VAL_LDFLAGS_SL : option (list byte);
  VAL_LIBS : option (list byte);
  PG_VERSION : list byte
}.

(** Functions of libpgport ([port.h]) and of the Win32 API.  A path rule maps
    the string in [my_exec_path] to the string it leaves in [ret_path];
    [GetShortPathName] gives the short form it writes, [None] when it fails
    and leaves the buffer alone. *)
Record Port := {
  get_doc_path : list byte -> list byte;
  get_html_path : list byte -> list byte;
  get_include_path : list byte -> list byte;
  get_pkginclude_path : list byte -> list byte;
  get_includeserver_path : list byte -> list byte;
  get_lib_path : list byte -> list byte;
  get_pkglib_path : list byte -> list byte;
  get_locale_path : list byte -> list byte;
  get_man_path : list byte -> list byte;
  get_share_path : list byte -> list byte;
  get_etc_path : list byte -> list byte;
  GetShortPathName : list byte -> option (list byte)
}.

(** ** The static table and the globals *)

Record configdata := { name : option (list byte); setting : option (list byte) }.

Definition entry (n : string) : configdata := {| name := Some (cs n); setting := None |}.

(** The initialiser of [ConfigData]. *)
Definition ConfigData_init : list configdata :=
  [ entry "BINDIR"; entry "DOCDIR"; entry "HTMLDIR"; entry "INCLUDEDIR";
    entry "PKGINCLUDEDIR"; entry "INCLUDEDIR-SERVER"; entry "LIBDIR";
    entry "PKGLIBDIR"; entry "LOCALEDIR"; entry "MANDIR"; entry "SHAREDIR";
    entry "SYSCONFDIR"; entry "PGXS"; entry "CONFIGURE"; entry "CC";
    entry "CPPFLAGS"; entry "CFLAGS"; entry "CFLAGS_SL"; entry "LDFLAGS";
    entry "LDFLAGS_SL"; entry "LIBS"; entry "VERSION";
    {| name := None; setting := None |} ].

Definition MemoryContext := nat.

(** The process-wide variables the file reads or writes: the server's
    [my_exec_path] (kept as the string the array holds), the file's static
    [ConfigData] and the server's [CurrentMemoryContext]. *)
Record globals := {
  my_exec_path : list byte;
  ConfigData : list configdata;
  CurrentMemoryContext : MemoryContext
}.

Definition with_ConfigData (tbl : list configdata) (g : globals) : globals :=
  {| my_exec_path := my_exec_path g; ConfigData := tbl;
     CurrentMemoryContext := CurrentMemoryContext g |}.

Definition MemoryContextSwitchTo (ctx : MemoryContext) (g : globals) : globals :=
  {| my_exec_path := my_exec_path g; ConfigData := ConfigData g;
     CurrentMemoryContext := ctx |}.

(** The assignment [ConfigData[i].setting = v]. *)
Definition set_setting (i : nat) (v : list byte) (tbl : list configdata)
  : option (list configdata) :=
  match nth_error tbl i with
  | Some e => Some (firstn i tbl ++ {| name := name e; setting := Some v |} :: skipn (S i) tbl)
  | None => None
  end.

(** ** cleanup_path and get_configdata *)

Section Reporter.

Variable B : Build.
Variable P : Port.

(** The loop of [cleanup_path] that turns each backslash of the string at
    [ptr] into a slash. *)
Fixpoint backslash_to_slash (at_ptr : list byte) : option (list byte) :=
  match at_ptr with
  | [] => None
  | c :: rest =>
      if is_nul c then Some at_ptr
      else rest' <- backslash_to_slash rest ;;
           Some ((if Byte.eqb c x5c then x2f else c) :: rest')
  end.

Definition cleanup_path (path : list byte) : option (list byte) :=
  if WIN32 B then
    s <- c_string path ;;
    path1 <- match GetShortPathName P s with
             | Some short => strcpy path (lit short)
             | None => Some path
             end ;;
    backslash_to_slash path1
  else Some path.

(** A call of a path rule of libpgport: [rule(my_exec_path, path)]. *)
Definition call (rule : list byte -> list byte) (g : globals) (path : list byte)
  : option (list byte) :=
  strcpy path (lit (rule (my_exec_path g))).

(** A compile-time string macro, or the fallback of its [#else] branch. *)
Definition macro_or_not_recorded (VAL : option (list byte)) : list byte :=
  match VAL with
  | Some v => lit v
  | None => lit (cs "not recorded")
  end.

(** [stack] gives the indeterminate initial contents of the local array
    [path]. *)
Definition get_configdata (stack : nat -> byte) (g : globals) : option globals :=
  let tbl := ConfigData g in
  let path := map stack (seq 0 (MAXPGPATH B)) in
  let sizeof_path := Z.of_nat (MAXPGPATH B) in

  path <- strcpy path (lit (my_exec_path g)) ;;
  lastsep <- strrchr path x2f ;;
  path <- match lastsep with
          | Some i => store path i x00
          | None => Some path
          end ;;
  path <- cleanup_path path ;;
  v <- pstrdup path ;; tbl <- set_setting 0 v tbl ;;

  path <- call (get_doc_path P) g path ;;
  path <- cleanup_path path ;;
  v <- pstrdup path ;; tbl <- set_setting 1 v tbl ;;

  path <- call (get_html_path P) g path ;;
  path <- cleanup_path path ;;
  v <- pstrdup path ;; tbl <- set_setting 2 v tbl ;;

  path <- call (get_include_path P) g path ;;
  path <- cleanup_path path ;;
  v <- pstrdup path ;; tbl <- set_setting 3 v tbl ;;

  path <- call (get_pkginclude_path P) g path ;;
  path <- cleanup_path path ;;
  v <- pstrdup path ;; tbl <- set_setting 4 v tbl ;;

  path <- call (get_includeserver_path P) g path ;;
  path <- cleanup_path path ;;
  v <- pstrdup path ;; tbl <- set_setting 5 v tbl ;;

  path <- call (get_lib_path P) g path ;;
  path <- cleanup_path path ;;
  v <- pstrdup path ;; tbl <- set_setting 6 v tbl ;;

  path <- call (get_pkglib_path P) g path ;;
  path <- cleanup_path path ;;
  v <- pstrdup path ;; tbl <- set_setting 7 v tbl ;;

  path <- call (get_locale_path P) g path ;;
  path <- cleanup_path path ;;
  v <- pstrdup path ;; tbl <- set_setting 8 v tbl ;;

  path <- call (get_man_path P) g path ;;
  path <- cleanup_path path ;;
  v <- pstrdup path ;; tbl <- set_setting 9 v tbl ;;

  path <- call (get_share_path P) g path ;;
  path <- cleanup_path path ;;
  v <- pstrdup path ;; tbl <- set_setting 10 v tbl ;;

  path <- call (get_etc_path P) g path ;;
  path <- cleanup_path path ;;
  v <- pstrdup path ;; tbl <- set_setting 11 v tbl ;;

  path <- call (get_pkglib_path P) g path ;;
  r <- conf_strlcat (SIZE_MAX B) path (lit (cs "/pgxs/src/makefiles/pgxs.mk")) sizeof_path ;;
  path <- cleanup_path (fst r) ;;
  v <- pstrdup path ;; tbl <- set_setting 12 v tbl ;;

  v <- pstrdup (macro_or_not_recorded (VAL_CONFIGURE B)) ;; tbl <- set_setting 13 v tbl ;;
  v <- pstrdup (macro_or_not_recorded (VAL_CC B)) ;; tbl <- set_setting 14 v tbl ;;
  v <- pstrdup (macro_or_not_recorded (VAL_CPPFLAGS B)) ;; tbl <- set_setting 15 v tbl ;;
  v <- pstrdup (macro_or_not_recorded (VAL_CFLAGS B)) ;; tbl <- set_setting 16 v tbl ;;
  v <- pstrdup (macro_or_not_recorded (VAL_CFLAGS_SL B)) ;; tbl <- set_setting 17 v tbl ;;
  v <- pstrdup (macro_or_not_recorded (VAL_LDFLAGS B)) ;; tbl <- set_setting 18 v tbl ;;
  v <- pstrdup (macro_or_not_recorded (VAL_LDFLAGS_SL B)) ;; tbl <- set_setting 19 v tbl ;;
  v <- pstrdup (macro_or_not_recorded (VAL_LIBS B)) ;; tbl <- set_setting 20 v tbl ;;

  v <- pstrdup (lit (cs "PostgreSQL " ++ PG_VERSION B)) ;; tbl <- set_setting 21 v tbl ;;
  Some (with_ConfigData tbl g).

(** ** pg_config *)

(** A tuple descriptor: the [atttypid] of each attribute; [natts] is the
    length. *)
Definition TupleDesc := list Z.

(** A tuple built from C strings: one value per column, [None] for NULL. *)
Definition HeapTuple := (option (list byte) * option (list byte))%type.
Definition Tuplestorestate := list HeapTuple.

(** The fields of the caller's [ReturnSetInfo] the function uses. *)
Record ReturnSetInfo := {
  allowedModes : Z;
  expectedDesc : option TupleDesc;
  ecxt_per_query_memory : MemoryContext;
  returnMode : Z;
  setResult : option Tuplestorestate;
  setDesc : option TupleDesc
}.

(** The two [ereport(ERROR, ...)] of the file; both carry
    [ERRCODE_SYNTAX_ERROR]. *)
Inductive pg_error :=
| UnsupportedContext   (* materialize mode required, but it is not allowed in this context *)
| SchemaMismatch.      (* query-specified return tuple and function return type are not compatible *)

(** How a call ends, with the caller's [rsinfo] and the globals as the call
    leaves them: a return, an error raised by [ereport], or undefined
    behaviour. *)
Inductive outcome :=
| Returned (rsinfo : ReturnSetInfo) (g : globals)
| Raised (e : pg_error) (rsinfo : option ReturnSetInfo) (g : globals)
| Undefined.

Definition BuildTupleFromCStrings (values : option (list byte) * option (list byte))
  : HeapTuple := values.

Definition tuplestore_puttuple (tupstore : Tuplestorestate) (tuple : HeapTuple)
  : Tuplestorestate := tupstore ++ [tuple].

(** The loop [while (ConfigData[i].name) { ...; ++i; }] with [at_i] the
    array from index [i] on. *)
Fixpoint emit (at_i : list configdata) (tupstore : Tuplestorestate)
  : option Tuplestorestate :=
  match at_i with
  | [] => None
  | e :: rest =>
      match name e with
      | None => Some tupstore
      | Some n =>
          let values := (Some n, setting e) in
          let tuple := BuildTupleFromCStrings values in
          emit rest (tuplestore_puttuple tupstore tuple)
      end
  end.

(** The test of the tuple descriptor.  In C the attributes are read only
    when [natts] is 2; here [nth] has a default for the reads that do not
    happen. *)
Definition incompatible (tupdesc : TupleDesc) : bool :=
  negb (Z.of_nat (length tupdesc) =? 2)%Z
  || negb (nth 0 tupdesc 0 =? TEXTOID B)%Z
  || negb (nth 1 tupdesc 0 =? TEXTOID B)%Z.

Definition pg_config (stack : nat -> byte) (rsinfo : option ReturnSetInfo) (g : globals)
  : outcome :=
  match rsinfo with
  | None => Raised UnsupportedContext rsinfo g
  | Some rs =>
      if (Z.land (allowedModes rs) (SFRM_Materialize B) =? 0)%Z
      then Raised UnsupportedContext rsinfo g
      else
        let per_query_ctx := ecxt_per_query_memory rs in
        let oldcontext := CurrentMemoryContext g in
        let g := MemoryContextSwitchTo per_query_ctx g in
        match expectedDesc rs with
        | None => Undefined
        | Some tupdesc =>
            if incompatible tupdesc
            then Raised SchemaMismatch rsinfo g
            else
              let rs := {| allowedModes := allowedModes rs;
                           expectedDesc := expectedDesc rs;
                           ecxt_per_query_memory := ecxt_per_query_memory rs;
                           returnMode := SFRM_Materialize B;
                           setResult := setResult rs;
                           setDesc := setDesc rs |} in
              let tupstore := [] in
              match get_configdata stack g with
              | None => Undefined
              | Some g =>
                  match emit (ConfigData g) tupstore with
                  | None => Undefined
                  | Some tupstore =>
                      let rs := {| allowedModes := allowedModes rs;
                                   expectedDesc := expectedDesc rs;
                                   ecxt_per_query_memory := ecxt_per_query_memory rs;
                                   returnMode := returnMode rs;
                                   setResult := Some tupstore;
                                   setDesc := Some tupdesc |} in
                      Returned rs (MemoryContextSwitchTo oldcontext g)
                  end
              end
        end
  end.

End Reporter.

(** ** A build for Linux with the default installation prefix *)

Definition linux_build : Build := {|
  MAXPGPATH := 1024;
  SIZE_MAX := 2 ^ 64 - 1;
  WIN32 := false;
  TEXTOID := 25;
  SFRM_Materialize := 2;
  VAL_CONFIGURE := Some (cs "'--prefix=/usr/local/pgsql'");
  VAL_CC := Some (cs "gcc");
  VAL_CPPFLAGS := Some (cs "-D_GNU_SOURCE");
  VAL_CFLAGS := Some (cs "-O2 -Wall");
  VAL_CFLAGS_SL := Some (cs "-fpic");
  VAL_LDFLAGS := None;
  VAL_LDFLAGS_SL := None;
  VAL_LIBS := Some (cs "-lpgport -lz -lm");
  PG_VERSION := cs "9.0.4"
|}.

(** The path rules of an installation that was not relocated: each gives the
    configured directory. *)
Definition default_port : Port := {|
  get_doc_path := fun _ => cs "/usr/local/pgsql/share/doc";
  get_html_path := fun _ => cs "/usr/local/pgsql/share/doc";
  get_include_path := fun _ => cs "/usr/local/pgsql/include";
  get_pkginclude_path := fun _ => cs "/usr/local/pgsql/include";
  get_includeserver_path := fun _ => cs "/usr/local/pgsql/include/server";
  get_lib_path := fun _ => cs "/usr/local/pgsql/lib";
  get_pkglib_path := fun _ => cs "/usr/local/pgsql/lib";
  get_locale_path := fun _ => cs "/usr/local/pgsql/share/locale";
  get_man_path := fun _ => cs "/usr/local/pgsql/share/man";
  get_share_path := fun _ => cs "/usr/local/pgsql/share";
  get_etc_path := fun _ => cs "/usr/local/pgsql/etc";
  GetShortPathName := fun _ => None
|}.

(** The globals of a server started from the default prefix, before the
    first call. *)
Definition postgres_globals : globals := {|
  my_exec_path := cs "/usr/local/pgsql/bin/postgres";
  ConfigData := ConfigData_init;
  CurrentMemoryContext := 0
|}.

(** A call from the FROM clause of a query: both return modes are allowed
    and two text columns are expected. *)
Definition sql_call : ReturnSetInfo := {|
  allowedModes := 3;
  expectedDesc := Some [25; 25]%Z;
  ecxt_per_query_memory := 1;
  returnMode := 1;
  setResult := None;
  setDesc := None
|}.

(** A call from a context that takes one value per call only
    ([SFRM_ValuePerCall]), expecting an integer and a text column. *)
Definition value_per_call : ReturnSetInfo := {|
  allowedModes := 1;
  expectedDesc := Some [23; 25]%Z;
  ecxt_per_query_memory := 1;
  returnMode := 1;
  setResult := None;
  setDesc := None
|}.

(** ** A build for 32-bit Windows installed under "Program Files" *)

Definition windows_build : Build := {|
  MAXPGPATH := 1024;
  SIZE_MAX := 2 ^ 32 - 1;
  WIN32 := true;
  TEXTOID := 25;
  SFRM_Materialize := 2;
  VAL_CONFIGURE := None;
  VAL_CC := None;
  VAL_CPPFLAGS := None;
  VAL_CFLAGS := None;
  VAL_CFLAGS_SL := None;
  VAL_LDFLAGS := None;
  VAL_LDFLAGS_SL := None;
  VAL_LIBS := None;
  PG_VERSION := cs "9.0.4"
|}.

(** The library directory exists and has a short name; no other path of the
    table does, so [GetShortPathName] fails on them. *)
Definition program_files_port : Port := {|
  get_doc_path := fun _ => cs "C:\Program Files\PostgreSQL\9.0\doc";
  get_html_path := fun _ => cs "C:\Program Files\PostgreSQL\9.0\doc";
  get_include_path := fun _ => cs "C:\Program Files\PostgreSQL\9.0\include";
  get_pkginclude_path := fun _ => cs "C:\Program Files\PostgreSQL\9.0\include";
  get_includeserver_path := fun _ => cs "C:\Program Files\PostgreSQL\9.0\include\server";
  get_lib_path := fun _ => cs "C:\Program Files\PostgreSQL\9.0\lib";
  get_pkglib_path := fun _ => cs "C:\Program Files\PostgreSQL\9.0\lib";
  get_locale_path := fun _ => cs "C:\Program Files\PostgreSQL\9.0\share\locale";
  get_man_path := fun _ => cs "C:\Program Files\PostgreSQL\9.0\share\man";
  get_share_path := fun _ => cs "C:\Program Files\PostgreSQL\9.0\share";
  get_etc_path := fun _ => cs "C:\Program Files\PostgreSQL\9.0\etc";
  GetShortPathName := fun s =>
    if list_eq_dec byte_eq_dec s (cs "C:\Program Files\PostgreSQL\9.0\lib")
    then Some (cs "C:\PROGRA~1\POSTGR~1\9.0\lib")
    else None
|}.

Definition postgres_exe_globals : globals := {|
  my_exec_path := cs "C:/Program Files/PostgreSQL/9.0/bin/postgres.exe";
  ConfigData := ConfigData_init;
  CurrentMemoryContext := 0
|}.

(** The same installation where the directory of the executable exists and
    has a short name. *)
Definition short_bindir_port : Port := {|
  get_doc_path := get_doc_path program_files_port;
  get_html_path := get_html_path program_files_port;
  get_include_path := get_include_path program_files_port;
  get_pkginclude_path := get_pkginclude_path program_files_port;
  get_includeserver_path := get_includeserver_path program_files_port;
  get_lib_path := get_lib_path program_files_port;
  get_pkglib_path := get_pkglib_path program_files_port;
  get_locale_path := get_locale_path program_files_port;
  get_man_path := get_man_path program_files_port;
  get_share_path := get_share_path program_files_port;
  get_etc_path := get_etc_path program_files_port;
  GetShortPathName := fun s =>
    if list_eq_dec byte_eq_dec s (cs "C:/Program Files/PostgreSQL/9.0/bin")
    then Some (cs "C:\PROGRA~1\POSTGR~1\9.0\bin")
    else None
|}.

(** ** Reference values and well-formedness conditions *)

(** The path without its last segment: [Some d] when [s] is [d], a slash and
    a segment without slash; [None] when [s] has no slash. *)
Fixpoint dirname (s : list byte) : option (list byte) :=
  match s with
  | [] => None
  | c :: rest =>
      match dirname rest with
      | Some d => Some (c :: d)
      | None => if Byte.eqb c x2f then Some [] else None
      end
  end.

Definition strip_last_segment (s : list byte) : list byte :=
  match dirname s with
  | Some d => d
  | None => s
  end.

Definition slash_free (s : list byte) : bool := forallb (fun c => negb (Byte.eqb c x2f)) s.

(** The path rules of an installation moved as a whole: each directory is
    found from the directory above the one of the executable, and the result
    is cut to the buffer the rule fills. *)
Definition relocated (tail : string) (exe : list byte) : list byte :=
  firstn 1023 (strip_last_segment (strip_last_segment exe) ++ cs tail).

Definition relocated_port : Port := {|
  get_doc_path := relocated "/share/doc";
  get_html_path := relocated "/share/doc";
  get_include_path := relocated "/include";
  get_pkginclude_path := relocated "/include";
  get_includeserver_path := relocated "/include/server";
  get_lib_path := relocated "/lib";
  get_pkglib_path := relocated "/lib";
  get_locale_path := relocated "/share/locale";
  get_man_path := relocated "/share/man";
  get_share_path := relocated "/share";
  get_etc_path := relocated "/etc";
  GetShortPathName := fun _ => None
|}.

(** A server installed under a directory whose name has 1000 bytes. *)
Definition deep_globals : globals := {|
  my_exec_path := x2f :: repeat x61 1000 ++ cs "/bin/postgres";
  ConfigData := ConfigData_init;
  CurrentMemoryContext := 0
|}.

Section Reference.

Variable B : Build.
Variable P : Port.

(** A string that fits a buffer of [MAXPGPATH] bytes with its terminator. *)
Definition path_string (s : list byte) : Prop :=
  nul_free s = true /\ length s < MAXPGPATH B.

(** The string [cleanup_path] leaves in a buffer that held [s]. *)
Definition cleanup_string (s : list byte) : list byte :=
  if WIN32 B
  then map (fun c => if Byte.eqb c x5c then x2f else c)
           (match GetShortPathName P s with Some short => short | None => s end)
  else s.

(** The bounded concatenation of [s] and [t] in a buffer of [MAXPGPATH]
    bytes. *)
Definition bounded_concat (s t : list byte) : list byte :=
  firstn (MAXPGPATH B - 1) (s ++ t).

Definition macro_value (VAL : option (list byte)) : list byte :=
  match VAL with
  | Some v => v
  | None => cs "not recorded"
  end.

Definition pgxs_suffix : list byte := cs "/pgxs/src/makefiles/pgxs.mk".

(** The 22 settings, in the order of the table, for the executable path
    [exe]. *)
Definition settings (exe : list byte) : list (list byte) :=
  [ cleanup_string (strip_last_segment exe);
    cleanup_string (get_doc_path P exe);
    cleanup_string (get_html_path P exe);
    cleanup_string (get_include_path P exe);
    cleanup_string (get_pkginclude_path P exe);
    cleanup_string (get_includeserver_path P exe);
    cleanup_string (get_lib_path P exe);
    cleanup_string (get_pkglib_path P exe);
    cleanup_string (get_locale_path P exe);
    cleanup_string (get_man_path P exe);
    cleanup_string (get_share_path P exe);
    cleanup_string (get_etc_path P exe);
    cleanup_string (bounded_concat (get_pkglib_path P exe) pgxs_suffix);
    macro_value (VAL_CONFIGURE B);
    macro_value (VAL_CC B);
    macro_value (VAL_CPPFLAGS B);
    macro_value (VAL_CFLAGS B);
    macro_value (VAL_CFLAGS_SL B);
    macro_value (VAL_LDFLAGS B);
    macro_value (VAL_LDFLAGS_SL B);
    macro_value (VAL_LIBS B);
    cs "PostgreSQL " ++ PG_VERSION B ].

(** The table with the setting of its leading entries replaced. *)
Fixpoint fill (tbl : list configdata) (vs : list (list byte)) : list configdata :=
  match tbl, vs with
  | e :: tbl', v :: vs' => {| name := name e; setting := Some v |} :: fill tbl' vs'
  | _, _ => tbl
  end.

(** The macros of the build are strings, and [path] has a size. *)
Record BuildOK : Prop := {
  sizeof_path : (Z.of_nat (MAXPGPATH B) <= SIZE_MAX B)%Z;
  macros_are_strings :
    forall v,
      In (Some v) [ VAL_CONFIGURE B; VAL_CC B; VAL_CPPFLAGS B; VAL_CFLAGS B;
                    VAL_CFLAGS_SL B; VAL_LDFLAGS B; VAL_LDFLAGS_SL B; VAL_LIBS B;
                    Some (PG_VERSION B) ] ->
      nul_free v = true
}.

(** The contract of the path rules (they fill a buffer of [MAXPGPATH]
    bytes) and of [GetShortPathName] called with [MAXPGPATH - 1]. *)
Record PortOK : Prop := {
  rules_fill_path :
    forall rule,
      In rule [ get_doc_path P; get_html_path P; get_include_path P;
                get_pkginclude_path P; get_includeserver_path P; get_lib_path P;
                get_pkglib_path P; get_locale_path P; get_man_path P;
                get_share_path P; get_etc_path P ] ->
      forall exe, path_string exe -> path_string (rule exe);
  short_path_fits :
    forall s short,
      GetShortPathName P s = Some short ->
      nul_free short = true /\ length short < MAXPGPATH B - 1
}.

(** The globals as the server and earlier calls can leave them: a path in
    [my_exec_path], and the names of the table as initialised. *)
Record GlobalsOK (g : globals) : Prop := {
  exec_path_ok : path_string (my_exec_path g);
  names_fixed : map name (ConfigData g) = map name ConfigData_init
}.

(** The buffer [path] holds the string [s]. *)
Definition holds (path s : list byte) : Prop :=
  nul_free s = true /\ length path = MAXPGPATH B /\ exists rest, path = s ++ x00 :: rest.

End Reference.

(** The setting of entry [i], as [emit] reads it. *)
Definition value_of (tbl : list configdata) (i : nat) : option (list byte) :=
  match nth_error tbl i with
  | Some e => setting e
  | None => None
  end.

(** The 22 names of the table, in its order. *)
Definition config_names : list (list byte) :=
  map cs [ "BINDIR"; "DOCDIR"; "HTMLDIR"; "INCLUDEDIR"; "PKGINCLUDEDIR";
           "INCLUDEDIR-SERVER"; "LIBDIR"; "PKGLIBDIR"; "LOCALEDIR"; "MANDIR";
           "SHAREDIR"; "SYSCONFDIR"; "PGXS"; "CONFIGURE"; "CC"; "CPPFLAGS";
           "CFLAGS"; "CFLAGS_SL"; "LDFLAGS"; "LDFLAGS_SL"; "LIBS"; "VERSION" ]%string.

(** The rows for a list of settings: each name with its setting. *)
Definition rows_of (vs : list (list byte)) : Tuplestorestate :=
  combine (map Some config_names) (map Some vs).

(** A call can return a materialized set to its caller. *)
Definition can_materialize (B : Build) (rsinfo : option ReturnSetInfo) : Prop :=
  exists rs, rsinfo = Some rs /\ Z.land (allowedModes rs) (SFRM_Materialize B) <> 0%Z.

(** * Facts about C strings *)

Section CStringFacts.

Lemma is_nul_true c : is_nul c = true -> c = x00.
Proof. apply Byte.byte_dec_bl. Qed.

Lemma nul_free_cons c s :
  nul_free (c :: s) = true <-> is_nul c = false /\ nul_free s = true.
Proof.
  unfold nul_free; simpl. rewrite andb_true_iff, negb_true_iff. tauto.
Qed.

Lemma nul_free_app s t :
  nul_free (s ++ t) = true <-> nul_free s = true /\ nul_free t = true.
Proof. unfold nul_free. rewrite forallb_app, andb_true_iff. tauto. Qed.

Lemma nul_free_firstn n s : nul_free s = true -> nul_free (firstn n s) = true.
Proof.
  intros H. rewrite <- (firstn_skipn n s) in H.
  apply nul_free_app in H. tauto.
Qed.

Lemma c_string_app s rest :
  nul_free s = true -> c_string (s ++ x00 :: rest) = Some s.
Proof.
  induction s as [|c s IH]; intros H; simpl.
  - reflexivity.
  - apply nul_free_cons in H. destruct H as [Hc Hs].
    rewrite Hc, (IH Hs). reflexivity.
Qed.

Lemma c_string_lit s : nul_free s = true -> c_string (lit s) = Some s.
Proof. intros H. unfold lit. apply (c_string_app s []), H. Qed.

Lemma store_app pre b rest c :
  store (pre ++ b :: rest) (length pre) c = Some (pre ++ c :: rest).
Proof.
  unfold store.
  assert (Hlt : (length pre <? length (pre ++ b :: rest)) = true).
  { apply Nat.ltb_lt. rewrite length_app. simpl. lia. }
  rewrite Hlt. f_equal.
  rewrite firstn_app, Nat.sub_diag, firstn_all, skipn_app.
  rewrite skipn_all2 by lia.
  replace (S (length pre) - length pre) with 1 by lia.
  simpl. rewrite app_nil_r. reflexivity.
Qed.

Lemma skipn_next {A} k (l : list A) :
  k < length l -> exists r, skipn k l = r :: skipn (S k) l.
Proof.
  revert l. induction k as [|k IH]; intros [|a l] H; simpl in *; try lia.
  - exists a. reflexivity.
  - apply IH. lia.
Qed.

Lemma strnlen_le mem siz : strnlen mem siz <= siz.
Proof.
  revert mem. induction siz as [|siz IH]; intros [|c mem]; simpl; try lia.
  destruct (is_nul c); [lia|]. specialize (IH mem). lia.
Qed.

Lemma strnlen_string s rest siz :
  nul_free s = true -> length s < siz ->
  strnlen (s ++ x00 :: rest) siz = length s.
Proof.
  revert siz. induction s as [|c s IH]; intros [|siz] H Hlt; simpl in Hlt; try lia.
  - reflexivity.
  - apply nul_free_cons in H. destruct H as [Hc Hs].
    simpl. rewrite Hc, IH by (trivial; lia). reflexivity.
Qed.

(** A buffer whose scan stops before [siz] holds a string there. *)
Lemma strnlen_split mem siz :
  siz <= length mem -> strnlen mem siz < siz ->
  nul_free (firstn (strnlen mem siz) mem) = true /\
  mem = firstn (strnlen mem siz) mem ++ x00 :: skipn (S (strnlen mem siz)) mem.
Proof.
  revert mem. induction siz as [|siz IH]; intros [|c mem] Hlen Hlt;
    simpl in Hlen, Hlt; try lia.
  simpl strnlen. destruct (is_nul c) eqn:Hc.
  - apply is_nul_true in Hc. subst c. auto.
  - destruct (IH mem) as [Hfree Hsplit]; try lia.
    split.
    + apply nul_free_cons. auto.
    + simpl. f_equal. exact Hsplit.
Qed.

End CStringFacts.

(** * Facts about conf_strlcat *)

Section StrlcatFacts.

Variable SIZE_MAX : Z.

Lemma size_t_small z : (0 <= z <= SIZE_MAX)%Z -> size_t SIZE_MAX z = z.
Proof. intros H. unfold size_t. apply Z.mod_small. lia. Qed.

(** The scanning loop stops at the terminator or after [siz] bytes. *)
Lemma find_end_strnlen mem siz d :
  siz <= length mem -> (Z.of_nat siz <= SIZE_MAX)%Z ->
  find_end SIZE_MAX mem (Z.of_nat siz) d = Some (d + strnlen mem siz).
Proof.
  revert mem d. induction siz as [|siz IH]; intros mem d Hlen Hmax.
  - destruct mem; simpl; f_equal; lia.
  - destruct mem as [|c mem]; [simpl in Hlen; lia|].
    cbn [find_end strnlen].
    replace (Z.of_nat (S siz) =? 0)%Z with false by (symmetry; apply Z.eqb_neq; lia).
    destruct (is_nul c).
    + f_equal. lia.
    + rewrite size_t_small by lia.
      replace (Z.of_nat (S siz) - 1)%Z with (Z.of_nat siz) by lia.
      rewrite IH by (simpl in Hlen; lia). f_equal. lia.
Qed.

(** The copying loop writes the first [m] characters of the source when
    [n = m + 1], and counts all of them. *)
Lemma append_copies t : forall tail pre rest m d s,
  nul_free t = true -> length pre = d -> S m <= length rest ->
  (Z.of_nat (S m) <= SIZE_MAX)%Z ->
  append SIZE_MAX (t ++ x00 :: tail) (pre ++ rest) d (Z.of_nat (S m)) s
  = Some (pre ++ firstn m t ++ skipn (min m (length t)) rest,
          d + min m (length t), s + length t).
Proof.
  induction t as [|c t IH]; intros tail pre rest m d s Hfree Hd Hm Hmax.
  - simpl. rewrite Nat.min_0_r, firstn_nil. simpl.
    do 2 f_equal; [f_equal|]; lia.
  - apply nul_free_cons in Hfree. destruct Hfree as [Hc Hfree].
    cbn [append app]. rewrite Hc.
    destruct m as [|m].
    + change (Z.of_nat 1 =? 1)%Z with true. cbn [negb].
      rewrite (IH tail pre rest 0 d (S s)) by assumption.
      simpl. do 2 f_equal. lia.
    + replace (Z.of_nat (S (S m)) =? 1)%Z with false
        by (symmetry; apply Z.eqb_neq; lia).
      cbn [negb].
      destruct rest as [|r rest]; [simpl in Hm; lia|].
      subst d. rewrite store_app.
      rewrite size_t_small by lia.
      replace (Z.of_nat (S (S m)) - 1)%Z with (Z.of_nat (S m)) by lia.
      replace (pre ++ c :: rest) with ((pre ++ [c]) ++ rest)
        by (rewrite <- app_assoc; reflexivity).
      rewrite (IH tail (pre ++ [c]) rest m (S (length pre)) (S s)); trivial.
      * cbn [firstn length Nat.min skipn]. rewrite <- app_assoc. simpl.
        do 2 f_equal; [f_equal|]; lia.
      * rewrite length_app. simpl. lia.
      * simpl in Hm. lia.
      * lia.
Qed.

(** Concatenation onto a buffer that holds a string shorter than [siz]. *)
Lemma conf_strlcat_string s0 rest0 t tail siz :
  nul_free s0 = true -> nul_free t = true ->
  length s0 < siz -> siz <= length (s0 ++ x00 :: rest0) ->
  (Z.of_nat siz <= SIZE_MAX)%Z ->
  let m := siz - length s0 - 1 in
  conf_strlcat SIZE_MAX (s0 ++ x00 :: rest0) (t ++ x00 :: tail) (Z.of_nat siz)
  = Some ((s0 ++ firstn m t) ++ x00 :: skipn (min m (length t)) rest0,
          size_t SIZE_MAX (Z.of_nat (length s0) + Z.of_nat (length t))).
Proof.
  intros Hs0 Ht Hlt Hcap Hmax m.
  unfold conf_strlcat.
  rewrite find_end_strnlen by assumption.
  rewrite strnlen_string by assumption. cbn [Nat.add].
  rewrite size_t_small by lia.
  replace (Z.of_nat siz - Z.of_nat (length s0))%Z with (Z.of_nat (S m)) by lia.
  replace (Z.of_nat (S m) =? 0)%Z with false by (symmetry; apply Z.eqb_neq; lia).
  rewrite length_app in Hcap. simpl in Hcap.
  rewrite (append_copies t tail s0 (x00 :: rest0) m (length s0) 0); trivial;
    [|simpl; lia|lia].
  set (k := min m (length t)).
  assert (Hk : k <= length rest0) by lia.
  replace (skipn k (x00 :: rest0)) with
    (match k with 0 => x00 | S k' => nth k' rest0 x00 end :: skipn k rest0).
  2:{ destruct k as [|k']; [reflexivity|]. simpl.
      destruct (skipn_next k' rest0) as [r Hr]; [lia|].
      rewrite Hr. f_equal.
      rewrite <- (firstn_skipn k' rest0) at 1.
      rewrite app_nth2; rewrite length_firstn; [|lia].
      replace (k' - min k' (length rest0)) with 0 by lia.
      rewrite Hr. reflexivity. }
  rewrite app_assoc.
  replace (length s0 + k) with (length (s0 ++ firstn m t))
    by (rewrite length_app, length_firstn; reflexivity).
  rewrite store_app. cbn [Nat.add].
  replace (length t) with (0 + length t) at 3 by reflexivity.
  reflexivity.
Qed.

End StrlcatFacts.

(** * Facts about the reporter *)

Lemma dirname_split s d :
  dirname s = Some d -> exists base, s = d ++ x2f :: base.
Proof.
  revert d. induction s as [|c s IH]; intros d H; simpl in H; [discriminate|].
  destruct (dirname s) as [d'|].
  - injection H as <-. destruct (IH d' eq_refl) as [base ->].
    exists base. reflexivity.
  - destruct (Byte.eqb c x2f) eqn:Hc; [|discriminate].
    injection H as <-. apply Byte.byte_dec_bl in Hc. subst c.
    exists s. reflexivity.
Qed.

Lemma dirname_slash_free base : slash_free base = true -> dirname base = None.
Proof.
  induction base as [|c base IH]; intros H; simpl in *; [reflexivity|].
  apply andb_true_iff in H. destruct H as [Hc Hb].
  rewrite (IH Hb). apply negb_true_iff in Hc. rewrite Hc. reflexivity.
Qed.

(** Stripping removes exactly the last segment and its slash. *)
Lemma strip_last_segment_app dir base :
  slash_free base = true -> strip_last_segment (dir ++ x2f :: base) = dir.
Proof.
  intros H. unfold strip_last_segment.
  assert (E : dirname (dir ++ x2f :: base) = Some dir).
  { induction dir as [|c dir IH]; simpl.
    - rewrite (dirname_slash_free base H). reflexivity.
    - rewrite IH. reflexivity. }
  rewrite E. reflexivity.
Qed.

Lemma strrchr_from_dirname s rest i last :
  nul_free s = true ->
  strrchr_from (s ++ x00 :: rest) x2f i last
  = Some (match dirname s with Some d => Some (i + length d) | None => last end).
Proof.
  revert i last. induction s as [|c s IH]; intros i last H.
  - reflexivity.
  - apply nul_free_cons in H. destruct H as [Hc Hs].
    cbn [app strrchr_from dirname]. rewrite Hc, (IH _ _ Hs).
    destruct (dirname s) as [d|].
    + simpl. do 2 f_equal. lia.
    + destruct (Byte.eqb c x2f); [|reflexivity]. simpl. do 2 f_equal. lia.
Qed.

Section ReporterFacts.

Variable B : Build.
Variable P : Port.
Hypothesis HB : BuildOK B.
Hypothesis HP : PortOK B P.

Lemma holds_fits path s : holds B path s -> length s < MAXPGPATH B.
Proof.
  intros (_ & Hlen & rest & ->). rewrite length_app in Hlen. simpl in Hlen. lia.
Qed.

Lemma holds_strcpy path s :
  length path = MAXPGPATH B -> path_string B s ->
  exists path', strcpy path (lit s) = Some path' /\ holds B path' s.
Proof.
  intros Hlen [Hfree Hfit]. unfold strcpy.
  rewrite (c_string_lit s Hfree), Hlen.
  apply Nat.ltb_lt in Hfit. rewrite Hfit.
  eexists. split; [reflexivity|].
  apply Nat.ltb_lt in Hfit.
  repeat split; trivial; [|eexists; reflexivity].
  rewrite length_app. cbn [length]. rewrite length_skipn. lia.
Qed.

Lemma holds_pstrdup path s : holds B path s -> pstrdup path = Some s.
Proof. intros (Hfree & _ & rest & ->). apply c_string_app, Hfree. Qed.

Lemma holds_strrchr path s :
  holds B path s -> strrchr path x2f = Some (option_map (@length byte) (dirname s)).
Proof.
  intros (Hfree & _ & rest & ->). unfold strrchr.
  rewrite strrchr_from_dirname by assumption.
  destruct (dirname s); reflexivity.
Qed.

Lemma holds_strip path s :
  holds B path s ->
  exists path',
    match option_map (@length byte) (dirname s) with
    | Some i => store path i x00
    | None => Some path
    end = Some path' /\ holds B path' (strip_last_segment s).
Proof.
  intros H. unfold strip_last_segment.
  destruct (dirname s) as [d|] eqn:Hd; simpl.
  - destruct H as (Hfree & Hlen & rest & ->).
    destruct (dirname_split s d Hd) as [base ->].
    rewrite <- app_assoc. cbn [app]. rewrite store_app.
    eexists. split; [reflexivity|].
    apply nul_free_app in Hfree. destruct Hfree as [Hfd _].
    repeat split; trivial.
    + rewrite <- Hlen. repeat (rewrite !length_app; cbn [length]). lia.
    + eexists. reflexivity.
  - exists path. auto.
Qed.

Lemma backslash_to_slash_string s rest :
  nul_free s = true ->
  backslash_to_slash (s ++ x00 :: rest)
  = Some (map (fun c => if Byte.eqb c x5c then x2f else c) s ++ x00 :: rest).
Proof.
  induction s as [|c s IH]; intros H.
  - reflexivity.
  - apply nul_free_cons in H. destruct H as [Hc Hs].
    cbn [app backslash_to_slash map]. rewrite Hc, (IH Hs). reflexivity.
Qed.

Lemma nul_free_slashes s :
  nul_free s = true ->
  nul_free (map (fun c => if Byte.eqb c x5c then x2f else c) s) = true.
Proof.
  induction s as [|c s IH]; intros H; [reflexivity|].
  apply nul_free_cons in H. destruct H as [Hc Hs].
  cbn [map]. apply nul_free_cons. split; [|auto].
  destruct (Byte.eqb c x5c); [reflexivity|exact Hc].
Qed.

Lemma holds_cleanup path s :
  holds B path s ->
  exists path', cleanup_path B P path = Some path' /\ holds B path' (cleanup_string B P s).
Proof.
  intros H. unfold cleanup_path, cleanup_string.
  destruct (WIN32 B); [|exists path; auto].
  pose proof (holds_pstrdup path s H) as Hc. unfold pstrdup in Hc. rewrite Hc.
  assert (Hshort : exists path1,
             match GetShortPathName P s with
             | Some short => strcpy path (lit short)
             | None => Some path
             end = Some path1 /\
             holds B path1 (match GetShortPathName P s with
                            | Some short => short
                            | None => s
                            end)).
  { destruct (GetShortPathName P s) as [short|] eqn:Hs; [|exists path; auto].
    destruct (short_path_fits B P HP s short Hs) as [Hfree Hfit].
    apply holds_strcpy; [apply H|]. split; [exact Hfree|lia]. }
  destruct Hshort as (path1 & E & Hfree & Hlen & rest & Hpath1).
  rewrite E, Hpath1, backslash_to_slash_string by assumption.
  eexists. split; [reflexivity|].
  repeat split.
  - apply nul_free_slashes, Hfree.
  - rewrite <- Hlen, Hpath1, !length_app, length_map. reflexivity.
  - eexists. reflexivity.
Qed.

Lemma holds_call rule g path s :
  In rule [ get_doc_path P; get_html_path P; get_include_path P;
            get_pkginclude_path P; get_includeserver_path P; get_lib_path P;
            get_pkglib_path P; get_locale_path P; get_man_path P;
            get_share_path P; get_etc_path P ] ->
  GlobalsOK B g -> holds B path s ->
  exists path', call rule g path = Some path' /\ holds B path' (rule (my_exec_path g)).
Proof.
  intros Hin Hg Hpath. unfold call.
  apply holds_strcpy; [apply Hpath|].
  apply (rules_fill_path B P HP rule Hin), Hg.
Qed.

Lemma holds_strlcat path s t :
  holds B path s -> nul_free t = true ->
  exists r,
    conf_strlcat (SIZE_MAX B) path (lit t) (Z.of_nat (MAXPGPATH B)) = Some r /\
    holds B (fst r) (bounded_concat B s t).
Proof.
  intros H Ht. pose proof (holds_fits path s H) as Hfit.
  destruct H as (Hs & Hlen & rest & ->).
  unfold lit. rewrite conf_strlcat_string; trivial;
    [|lia|apply (sizeof_path B HB)].
  eexists. split; [reflexivity|]. cbn [fst].
  assert (E : s ++ firstn (MAXPGPATH B - length s - 1) t = bounded_concat B s t).
  { unfold bounded_concat. rewrite firstn_app, (firstn_all2 s) by lia.
    do 2 f_equal. lia. }
  rewrite E. repeat split.
  - unfold bounded_concat. apply nul_free_firstn, nul_free_app. auto.
  - rewrite <- Hlen, <- E. rewrite !length_app in *. simpl in *.
    rewrite length_firstn, length_skipn. lia.
  - eexists. reflexivity.
Qed.

Lemma pstrdup_macro VAL :
  (forall v, VAL = Some v -> nul_free v = true) ->
  pstrdup (macro_or_not_recorded VAL) = Some (macro_value VAL).
Proof.
  intros H. destruct VAL as [v|]; [|reflexivity].
  apply c_string_lit, H. reflexivity.
Qed.

End ReporterFacts.

Ltac rule_listed := cbn [In]; tauto.

Ltac path_step L :=
  let p := fresh "path" in
  let E := fresh "E" in
  let Hp := fresh "Hp" in
  destruct L as (p & E & Hp); rewrite E; cbv beta iota.

Ltac table_step L :=
  rewrite L;
  cbn [set_setting nth_error firstn skipn app name setting]; cbv beta iota.

Section Populate.

Variable B : Build.
Variable P : Port.
Hypothesis HB : BuildOK B.
Hypothesis HP : PortOK B P.

(** [get_configdata] returns, and leaves in the table the 22 reference
    settings, whatever settings and stack contents it finds. *)
Lemma get_configdata_fills stack g :
  GlobalsOK B g ->
  get_configdata B P stack g
  = Some (with_ConfigData (fill (ConfigData g) (settings B P (my_exec_path g))) g).
Proof.
  intros Hg. pose proof (names_fixed B g Hg) as Hnames.
  unfold get_configdata. cbv zeta.
  destruct (ConfigData g) as [|e0 tbl]; [discriminate|].
  do 22 (destruct tbl as [|? tbl]; [discriminate|]).
  destruct tbl; [|discriminate]. clear Hnames.
  assert (Hmacro : forall VAL,
             In VAL [ VAL_CONFIGURE B; VAL_CC B; VAL_CPPFLAGS B; VAL_CFLAGS B;
                      VAL_CFLAGS_SL B; VAL_LDFLAGS B; VAL_LDFLAGS_SL B; VAL_LIBS B ] ->
             pstrdup (macro_or_not_recorded VAL) = Some (macro_value VAL)).
  { intros VAL Hin. apply pstrdup_macro. intros v ->.
    apply (macros_are_strings B HB). cbn [In] in *. tauto. }
  path_step (holds_strcpy B (map stack (seq 0 (MAXPGPATH B))) (my_exec_path g)
               ltac:(rewrite length_map, length_seq; reflexivity) (exec_path_ok B g Hg)).
  rewrite (holds_strrchr B _ _ Hp).
  path_step (holds_strip B _ _ Hp).
  path_step (holds_cleanup B P HP _ _ Hp0).
  table_step (holds_pstrdup B _ _ Hp1).
  path_step (holds_call B P HP (get_doc_path P) g _ _ ltac:(rule_listed) Hg Hp1).
  path_step (holds_cleanup B P HP _ _ Hp2).
  table_step (holds_pstrdup B _ _ Hp3).
  path_step (holds_call B P HP (get_html_path P) g _ _ ltac:(rule_listed) Hg Hp3).
  path_step (holds_cleanup B P HP _ _ Hp4).
  table_step (holds_pstrdup B _ _ Hp5).
  path_step (holds_call B P HP (get_include_path P) g _ _ ltac:(rule_listed) Hg Hp5).
  path_step (holds_cleanup B P HP _ _ Hp6).
  table_step (holds_pstrdup B _ _ Hp7).
  path_step (holds_call B P HP (get_pkginclude_path P) g _ _ ltac:(rule_listed) Hg Hp7).
  path_step (holds_cleanup B P HP _ _ Hp8).
  table_step (holds_pstrdup B _ _ Hp9).
  path_step (holds_call B P HP (get_includeserver_path P) g _ _ ltac:(rule_listed) Hg Hp9).
  path_step (holds_cleanup B P HP _ _ Hp10).
  table_step (holds_pstrdup B _ _ Hp11).
  path_step (holds_call B P HP (get_lib_path P) g _ _ ltac:(rule_listed) Hg Hp11).
  path_step (holds_cleanup B P HP _ _ Hp12).
  table_step (holds_pstrdup B _ _ Hp13).
  path_step (holds_call B P HP (get_pkglib_path P) g _ _ ltac:(rule_listed) Hg Hp13).
  path_step (holds_cleanup B P HP _ _ Hp14).
  table_step (holds_pstrdup B _ _ Hp15).
  path_step (holds_call B P HP (get_locale_path P) g _ _ ltac:(rule_listed) Hg Hp15).
  path_step (holds_cleanup B P HP _ _ Hp16).
  table_step (holds_pstrdup B _ _ Hp17).
  path_step (holds_call B P HP (get_man_path P) g _ _ ltac:(rule_listed) Hg Hp17).
  path_step (holds_cleanup B P HP _ _ Hp18).
  table_step (holds_pstrdup B _ _ Hp19).
  path_step (holds_call B P HP (get_share_path P) g _ _ ltac:(rule_listed) Hg Hp19).
  path_step (holds_cleanup B P HP _ _ Hp20).
  table_step (holds_pstrdup B _ _ Hp21).
  path_step (holds_call B P HP (get_etc_path P) g _ _ ltac:(rule_listed) Hg Hp21).
  path_step (holds_cleanup B P HP _ _ Hp22).
  table_step (holds_pstrdup B _ _ Hp23).
  path_step (holds_call B P HP (get_pkglib_path P) g _ _ ltac:(rule_listed) Hg Hp23).
  path_step (holds_strlcat B HB _ _ (cs "/pgxs/src/makefiles/pgxs.mk") Hp24 eq_refl).
  path_step (holds_cleanup B P HP _ _ Hp25).
  table_step (holds_pstrdup B _ _ Hp26).
  do 8 (table_step Hmacro; [|rule_listed]).
  assert (Hversion : pstrdup (lit (cs "PostgreSQL " ++ PG_VERSION B))
                     = Some (cs "PostgreSQL " ++ PG_VERSION B)).
  { apply c_string_lit, nul_free_app. split; [reflexivity|].
    apply (macros_are_strings B HB). rule_listed. }
  table_step Hversion.
  reflexivity.
Qed.

End Populate.

(** * Facts about the table and the rows *)

Lemma fill_names tbl vs : map name (fill tbl vs) = map name tbl.
Proof.
  revert vs. induction tbl as [|e tbl IH]; intros [|v vs]; simpl; trivial.
  rewrite IH. reflexivity.
Qed.

Lemma fill_fill tbl vs : fill (fill tbl vs) vs = fill tbl vs.
Proof.
  revert vs. induction tbl as [|e tbl IH]; intros [|v vs]; simpl; trivial.
  rewrite IH. reflexivity.
Qed.

Lemma value_of_fill tbl vs i :
  i < length vs -> length vs <= length tbl ->
  value_of (fill tbl vs) i = nth_error vs i.
Proof.
  revert vs i. induction tbl as [|e tbl IH]; intros [|v vs] [|i] Hi Hlen;
    simpl in Hi, Hlen; try lia.
  - reflexivity.
  - apply (IH vs i); lia.
Qed.

Lemma names_length tbl :
  map name tbl = map name ConfigData_init -> length tbl = 23.
Proof. intros H. apply (f_equal (@length _)) in H. rewrite !length_map in H. exact H. Qed.

(** Emission from a filled table stops at the sentinel, after one row per
    name. *)
Lemma emit_fill tbl v0 v1 v2 v3 v4 v5 v6 v7 v8 v9 v10 v11 v12 v13 v14 v15 v16 v17 v18
      v19 v20 v21 :
  map name tbl = map name ConfigData_init ->
  let vs := [v0; v1; v2; v3; v4; v5; v6; v7; v8; v9; v10; v11; v12; v13; v14; v15; v16;
             v17; v18; v19; v20; v21] in
  emit (fill tbl vs) [] = Some (rows_of vs).
Proof.
  intros Hnames vs.
  destruct tbl as [|e0 tbl]; [discriminate|].
  do 22 (destruct tbl as [|? tbl]; [discriminate|]).
  destruct tbl; [|discriminate].
  repeat match goal with
         | e : configdata |- _ => destruct e
         end.
  cbv [ConfigData_init entry] in Hnames. cbn [map name] in Hnames.
  injection Hnames as -> -> -> -> -> -> -> -> -> -> -> -> -> -> -> -> -> -> -> -> -> -> ->.
  reflexivity.
Qed.

Section Invocation.

Variable B : Build.
Variable P : Port.
Hypothesis HB : BuildOK B.
Hypothesis HP : PortOK B P.

Lemma get_configdata_keeps_globals_ok stack g :
  GlobalsOK B g ->
  exists g', get_configdata B P stack g = Some g' /\ GlobalsOK B g'
             /\ my_exec_path g' = my_exec_path g.
Proof.
  intros Hg. rewrite (get_configdata_fills B P HB HP stack g Hg).
  eexists. split; [reflexivity|]. split; [|reflexivity].
  split; cbn [with_ConfigData my_exec_path ConfigData].
  - apply Hg.
  - rewrite fill_names. apply Hg.
Qed.

Lemma populate_then_emit stack g :
  GlobalsOK B g ->
  exists g',
    get_configdata B P stack g = Some g' /\
    emit (ConfigData g') [] = Some (rows_of (settings B P (my_exec_path g))).
Proof.
  intros Hg. rewrite (get_configdata_fills B P HB HP stack g Hg).
  eexists. split; [reflexivity|].
  cbn [with_ConfigData ConfigData]. unfold settings.
  apply emit_fill, Hg.
Qed.

Lemma incompatible_iff tupdesc :
  incompatible B tupdesc = false <-> tupdesc = [TEXTOID B; TEXTOID B].
Proof.
  unfold incompatible. split.
  - intros H. apply orb_false_iff in H. destruct H as [H H1].
    apply orb_false_iff in H. destruct H as [Hn H0].
    apply negb_false_iff, Z.eqb_eq in Hn, H0, H1.
    destruct tupdesc as [|a [|b [|c tupdesc]]]; simpl in Hn; try lia.
    simpl in H0, H1. subst. reflexivity.
  - intros ->. simpl. rewrite Z.eqb_refl. reflexivity.
Qed.

(** A call in a context that accepts a materialized set, for two text
    columns, returns the rows of the reference settings. *)
Lemma pg_config_returns stack rs g :
  GlobalsOK B g ->
  Z.land (allowedModes rs) (SFRM_Materialize B) <> 0%Z ->
  expectedDesc rs = Some [TEXTOID B; TEXTOID B] ->
  exists g',
    pg_config B P stack (Some rs) g
    = Returned {| allowedModes := allowedModes rs;
                  expectedDesc := expectedDesc rs;
                  ecxt_per_query_memory := ecxt_per_query_memory rs;
                  returnMode := SFRM_Materialize B;
                  setResult := Some (rows_of (settings B P (my_exec_path g)));
                  setDesc := Some [TEXTOID B; TEXTOID B] |} g' /\
    my_exec_path g' = my_exec_path g /\
    ConfigData g' = fill (ConfigData g) (settings B P (my_exec_path g)) /\
    CurrentMemoryContext g' = CurrentMemoryContext g.
Proof.
  intros Hg Hmode Hdesc. unfold pg_config.
  apply Z.eqb_neq in Hmode. rewrite Hmode, Hdesc.
  replace (incompatible B [TEXTOID B; TEXTOID B]) with false
    by (symmetry; apply incompatible_iff; reflexivity).
  set (g1 := MemoryContextSwitchTo (ecxt_per_query_memory rs) g).
  assert (Hg1 : GlobalsOK B g1) by (split; apply Hg).
  rewrite (get_configdata_fills B P HB HP stack g1 Hg1).
  cbn [with_ConfigData ConfigData my_exec_path g1 MemoryContextSwitchTo].
  unfold settings at 1.
  rewrite emit_fill by apply Hg.
  eexists. split; [reflexivity|]. cbn. auto.
Qed.

End Invocation.

(** * The sample build is well formed *)

Lemma linux_build_ok : BuildOK linux_build.
Proof.
  split.
  - vm_compute. discriminate.
  - intros v Hin. cbn [In linux_build VAL_CONFIGURE VAL_CC VAL_CPPFLAGS VAL_CFLAGS
                         VAL_CFLAGS_SL VAL_LDFLAGS VAL_LDFLAGS_SL VAL_LIBS PG_VERSION] in Hin.
    repeat destruct Hin as [Hin|Hin];
      try discriminate; try contradiction; injection Hin as <-; reflexivity.
Qed.

Lemma short_string_is_path (s : list byte) :
  nul_free s = true -> (length s <? 1024) = true -> path_string linux_build s.
Proof. intros Hfree Hlen. split; [exact Hfree|]. apply Nat.ltb_lt, Hlen. Qed.

Lemma default_port_ok : PortOK linux_build default_port.
Proof.
  split.
  - intros rule Hin exe _. cbn [In] in Hin.
    repeat destruct Hin as [Hin|Hin]; try contradiction; subst rule;
      apply short_string_is_path; reflexivity.
  - intros s short H. discriminate.
Qed.

Lemma postgres_globals_ok : GlobalsOK linux_build postgres_globals.
Proof.
  split.
  - apply short_string_is_path; reflexivity.
  - reflexivity.
Qed.

(** * The claims *)

(** C10. For a destination of capacity at least [siz] and a NUL-terminated
    source [t], with [dlen] the length of the destination string as the scan
    of the first [siz] bytes finds it, [conf_strlcat] returns
    [dlen + strlen(src)], changes no byte beyond the first [siz], leaves the
    destination holding the NUL-terminated concatenation cut to [siz - 1]
    characters when [dlen < siz], and leaves the destination as it was when
    [dlen >= siz]. *)
Theorem conf_strlcat_bounded (SIZE_MAX : Z) (dst t tail : list byte) (siz : nat) :
  nul_free t = true ->
  siz <= length dst ->
  (Z.of_nat (length dst) + Z.of_nat (length t) <= SIZE_MAX)%Z ->
  let dlen := strnlen dst siz in
  exists dst',
    conf_strlcat SIZE_MAX dst (t ++ x00 :: tail) (Z.of_nat siz)
    = Some (dst', Z.of_nat (dlen + length t)) /\
    length dst' = length dst /\
    skipn siz dst' = skipn siz dst /\
    (dlen < siz ->
     c_string dst' = Some (firstn (siz - 1) (firstn dlen dst ++ t)) /\
     strnlen dst' siz < siz) /\
    (siz <= dlen -> dst' = dst).
Proof.
  intros Ht Hcap Hmax dlen.
  pose proof (strnlen_le dst siz) as Hle. fold dlen in Hle.
  destruct (Nat.lt_ge_cases dlen siz) as [Hlt|Hge].
  - destruct (strnlen_split dst siz Hcap Hlt) as [Hfree Hsplit]. fold dlen in Hfree, Hsplit.
    set (s0 := firstn dlen dst) in *. set (rest0 := skipn (S dlen) dst) in *.
    assert (Hs0 : length s0 = dlen) by (unfold s0; rewrite length_firstn; lia).
    clearbody s0 rest0 dlen. subst dst.
    rewrite length_app in Hcap, Hmax. cbn [length] in Hcap, Hmax.
    rewrite (conf_strlcat_string SIZE_MAX s0 rest0 t tail siz Hfree Ht)
      by (rewrite ?length_app; cbn [length]; lia).
    rewrite Hs0.
    set (m := siz - dlen - 1). set (k := min m (length t)).
    assert (Hcut : s0 ++ firstn m t = firstn (siz - 1) (s0 ++ t)).
    { rewrite firstn_app, (firstn_all2 s0) by lia. do 2 f_equal. lia. }
    assert (Hlen' : length (firstn m t) = k) by apply length_firstn.
    assert (Hfree' : nul_free (s0 ++ firstn m t) = true).
    { apply nul_free_app. split; [exact Hfree|apply nul_free_firstn, Ht]. }
    eexists. split; [|split; [|split; [|split]]].
    + rewrite size_t_small by lia. do 2 f_equal. lia.
    + rewrite !length_app. cbn [length]. rewrite length_skipn. lia.
    + replace ((s0 ++ firstn m t) ++ x00 :: skipn k rest0)
        with ((s0 ++ firstn m t ++ [x00]) ++ skipn k rest0)
        by (rewrite <- !app_assoc; reflexivity).
      replace (s0 ++ x00 :: rest0) with ((s0 ++ [x00]) ++ rest0)
        by (rewrite <- app_assoc; reflexivity).
      assert (H1 : skipn siz (s0 ++ firstn m t ++ [x00]) = [])
        by (apply skipn_all2; rewrite !length_app; cbn [length]; lia).
      assert (H2 : skipn siz (s0 ++ [x00]) = [])
        by (apply skipn_all2; rewrite !length_app; cbn [length]; lia).
      rewrite (skipn_app siz (s0 ++ firstn m t ++ [x00])), (skipn_app siz (s0 ++ [x00])).
      rewrite H1, H2.
      cbn [app]. rewrite skipn_skipn. f_equal.
      rewrite !length_app. cbn [length]. lia.
    + intros _. split.
      * rewrite c_string_app by exact Hfree'.
        rewrite Hcut. reflexivity.
      * rewrite strnlen_string; trivial; rewrite length_app; lia.
    + intros Hge. lia.
  - assert (Hd : dlen = siz) by lia.
    unfold conf_strlcat. rewrite find_end_strnlen by lia.
    fold dlen. cbn [Nat.add]. rewrite Hd, Z.sub_diag.
    unfold size_t at 1. rewrite Z.mod_0_l by lia. cbn [Z.eqb].
    unfold strlen. rewrite c_string_app by assumption. cbn [option_map].
    exists dst. split; [|split; [|split; [|split]]]; trivial.
    + rewrite size_t_small by lia. do 2 f_equal. lia.
    + intros Hlt. lia.
Qed.

(** At a buffer of 9 bytes holding the string "ab", the source "cdefgh" and
    [siz = 6]. *)
Lemma conf_strlcat_bounded_witness :
  exists dst',
    conf_strlcat (2 ^ 64 - 1) (lit (cs "ab") ++ cs "zzzzzz") (cs "cdefgh" ++ [x00]) 6
    = Some (dst', 8%Z) /\
    length dst' = 9 /\
    skipn 6 dst' = cs "zzz" /\
    (2 < 6 -> c_string dst' = Some (cs "abcde") /\ strnlen dst' 6 < 6) /\
    (6 <= 2 -> dst' = lit (cs "ab") ++ cs "zzzzzz").
Proof.
  apply (conf_strlcat_bounded (2 ^ 64 - 1) (lit (cs "ab") ++ cs "zzzzzz")
           (cs "cdefgh") [] 6).
  - reflexivity.
  - simpl. lia.
  - vm_compute. discriminate.
Defined.

(** C1. For every executable path, [get_configdata] followed by the emission
    loop yields exactly 22 rows whose names are, in order, BINDIR, DOCDIR,
    HTMLDIR, INCLUDEDIR, PKGINCLUDEDIR, INCLUDEDIR-SERVER, LIBDIR, PKGLIBDIR,
    LOCALEDIR, MANDIR, SHAREDIR, SYSCONFDIR, PGXS, CONFIGURE, CC, CPPFLAGS,
    CFLAGS, CFLAGS_SL, LDFLAGS, LDFLAGS_SL, LIBS, VERSION; the loop stops at
    entry 22, the sentinel without a name. *)
Theorem emit_22_rows_in_order (B : Build) (P : Port) (stack : nat -> byte) (g : globals) :
  BuildOK B -> PortOK B P -> GlobalsOK B g ->
  exists g' rows,
    get_configdata B P stack g = Some g' /\
    emit (ConfigData g') [] = Some rows /\
    length rows = 22 /\
    map fst rows = map Some config_names /\
    option_map name (nth_error (ConfigData g') 22) = Some None.
Proof.
  intros HB HP Hg.
  destruct (populate_then_emit B P HB HP stack g Hg) as (g' & Hpop & Hemit).
  exists g', (rows_of (settings B P (my_exec_path g))).
  repeat split; trivial.
  rewrite (get_configdata_fills B P HB HP stack g Hg) in Hpop.
  injection Hpop as <-. cbn [with_ConfigData ConfigData].
  pose proof (names_fixed B g Hg) as Hnames.
  rewrite <- (fill_names _ (settings B P (my_exec_path g))) in Hnames.
  rewrite <- (nth_error_map name 22), Hnames. reflexivity.
Qed.

Lemma emit_22_rows_in_order_witness :
  exists g' rows,
    get_configdata linux_build default_port (fun _ => x00) postgres_globals = Some g' /\
    emit (ConfigData g') [] = Some rows /\
    length rows = 22 /\
    map fst rows = map Some config_names /\
    option_map name (nth_error (ConfigData g') 22) = Some None.
Proof.
  apply (emit_22_rows_in_order linux_build default_port (fun _ => x00) postgres_globals
           linux_build_ok default_port_ok postgres_globals_ok).
Defined.

(** C2, as stated, fails: a call whose context does not allow a materialized
    set and whose expected row is not two text columns ends with
    [UnsupportedContext], not with [SchemaMismatch]. *)
Lemma schema_check_is_second :
  expectedDesc value_per_call = Some [23; 25]%Z /\
  [23; 25]%Z <> [TEXTOID linux_build; TEXTOID linux_build] /\
  pg_config linux_build default_port (fun _ => x00) (Some value_per_call) postgres_globals
  = Raised UnsupportedContext (Some value_per_call) postgres_globals /\
  UnsupportedContext <> SchemaMismatch.
Proof. repeat split; try discriminate; reflexivity. Qed.

(** C2, amended. In a context that allows a materialized set, for every
    expected row shape that is not exactly two text columns the call raises
    [SchemaMismatch] before the table is populated or a row is built: the
    caller's [rsinfo] is untouched (no result set), [ConfigData] is as it was,
    and only the memory context was switched. *)
Theorem bad_schema_raises_mismatch (B : Build) (P : Port) (stack : nat -> byte)
        (rs : ReturnSetInfo) (tupdesc : TupleDesc) (g : globals) :
  Z.land (allowedModes rs) (SFRM_Materialize B) <> 0%Z ->
  expectedDesc rs = Some tupdesc ->
  tupdesc <> [TEXTOID B; TEXTOID B] ->
  pg_config B P stack (Some rs) g
  = Raised SchemaMismatch (Some rs)
      {| my_exec_path := my_exec_path g;
         ConfigData := ConfigData g;
         CurrentMemoryContext := ecxt_per_query_memory rs |}.
Proof.
  intros Hmode Hdesc Hbad.
  unfold pg_config. apply Z.eqb_neq in Hmode. rewrite Hmode, Hdesc.
  destruct (incompatible B tupdesc) eqn:Hinc.
  - reflexivity.
  - apply incompatible_iff in Hinc. contradiction.
Qed.

Lemma bad_schema_raises_mismatch_witness :
  pg_config linux_build default_port (fun _ => x00)
    (Some {| allowedModes := 3; expectedDesc := Some [25]%Z;
             ecxt_per_query_memory := 1; returnMode := 1;
             setResult := None; setDesc := None |}) postgres_globals
  = Raised SchemaMismatch
      (Some {| allowedModes := 3; expectedDesc := Some [25]%Z;
               ecxt_per_query_memory := 1; returnMode := 1;
               setResult := None; setDesc := None |})
      {| my_exec_path := my_exec_path postgres_globals;
         ConfigData := ConfigData postgres_globals;
         CurrentMemoryContext := 1 |}.
Proof.
  apply (bad_schema_raises_mismatch linux_build default_port (fun _ => x00)
           {| allowedModes := 3; expectedDesc := Some [25]%Z;
              ecxt_per_query_memory := 1; returnMode := 1;
              setResult := None; setDesc := None |} [25]%Z postgres_globals).
  - vm_compute. discriminate.
  - reflexivity.
  - discriminate.
Defined.

(** C8. A call in a context that cannot take a materialized set raises
    [UnsupportedContext] with the caller's [rsinfo] and all globals exactly as
    they were: nothing was populated, built or switched. *)
Theorem no_materialize_raises_at_once (B : Build) (P : Port) (stack : nat -> byte)
        (rsinfo : option ReturnSetInfo) (g : globals) :
  ~ can_materialize B rsinfo ->
  pg_config B P stack rsinfo g = Raised UnsupportedContext rsinfo g.
Proof.
  intros Hno. unfold pg_config.
  destruct rsinfo as [rs|]; [|reflexivity].
  destruct (Z.eqb_spec (Z.land (allowedModes rs) (SFRM_Materialize B)) 0) as [E|E].
  - reflexivity.
  - exfalso. apply Hno. exists rs. auto.
Qed.

Lemma no_materialize_raises_at_once_witness :
  ~ can_materialize linux_build (Some value_per_call) /\
  pg_config linux_build default_port (fun _ => x00) (Some value_per_call) postgres_globals
  = Raised UnsupportedContext (Some value_per_call) postgres_globals.
Proof.
  assert (H : ~ can_materialize linux_build (Some value_per_call)).
  { intros (rs & E & Hmode). injection E as <-. apply Hmode. reflexivity. }
  split; [exact H|].
  apply (no_materialize_raises_at_once linux_build default_port (fun _ => x00)
           (Some value_per_call) postgres_globals H).
Defined.

(** C3, as stated, fails: for an executable path of 1014 bytes in a
    relocated installation PKGLIBDIR has 1005 bytes, and the PGXS setting is
    cut to [MAXPGPATH - 1 = 1023] bytes: 18 of the 27 bytes of the suffix
    are there. *)
Lemma pgxs_is_cut_to_the_buffer :
  exists g' pkglib pgxs,
    get_configdata linux_build relocated_port (fun _ => x00) deep_globals = Some g' /\
    value_of (ConfigData g') 7 = Some pkglib /\
    value_of (ConfigData g') 12 = Some pgxs /\
    length pkglib = 1005 /\
    length pgxs = 1023 /\
    pgxs <> pkglib ++ cs "/pgxs/src/makefiles/pgxs.mk".
Proof.
  do 3 eexists.
  split; [vm_compute; reflexivity|].
  split; [vm_compute; reflexivity|].
  split; [vm_compute; reflexivity|].
  split; [vm_compute; reflexivity|].
  split; [vm_compute; reflexivity|].
  intros H. apply (f_equal (@length byte)) in H. vm_compute in H. discriminate.
Qed.

(** C3, amended. On a build without the Windows path clean-up, PGXS is
    PKGLIBDIR with "/pgxs/src/makefiles/pgxs.mk" appended and the result cut
    to [MAXPGPATH - 1] bytes; it is the full concatenation whenever that fits
    the buffer. *)
Theorem pgxs_is_pkglibdir_with_suffix (B : Build) (P : Port) (stack : nat -> byte)
        (g : globals) :
  BuildOK B -> PortOK B P -> GlobalsOK B g -> WIN32 B = false ->
  exists g' pkglib,
    get_configdata B P stack g = Some g' /\
    value_of (ConfigData g') 7 = Some pkglib /\
    value_of (ConfigData g') 12
    = Some (firstn (MAXPGPATH B - 1) (pkglib ++ cs "/pgxs/src/makefiles/pgxs.mk")) /\
    (length pkglib + 27 < MAXPGPATH B ->
     value_of (ConfigData g') 12 = Some (pkglib ++ cs "/pgxs/src/makefiles/pgxs.mk")).
Proof.
  intros HB HP Hg Hwin.
  rewrite (get_configdata_fills B P HB HP stack g Hg).
  exists (with_ConfigData (fill (ConfigData g) (settings B P (my_exec_path g))) g),
         (get_pkglib_path P (my_exec_path g)).
  cbn [with_ConfigData ConfigData].
  pose proof (names_length _ (names_fixed B g Hg)) as Hlen.
  assert (H7 : value_of (fill (ConfigData g) (settings B P (my_exec_path g))) 7
               = Some (get_pkglib_path P (my_exec_path g))).
  { rewrite value_of_fill by (cbn [settings length]; lia).
    cbn [settings nth_error]. unfold cleanup_string. rewrite Hwin. reflexivity. }
  assert (H12 : value_of (fill (ConfigData g) (settings B P (my_exec_path g))) 12
                = Some (firstn (MAXPGPATH B - 1)
                          (get_pkglib_path P (my_exec_path g)
                           ++ cs "/pgxs/src/makefiles/pgxs.mk"))).
  { rewrite value_of_fill by (cbn [settings length]; lia).
    cbn [settings nth_error]. unfold cleanup_string. rewrite Hwin. reflexivity. }
  repeat split; trivial.
  intros Hfit. rewrite H12. f_equal. apply firstn_all2.
  rewrite length_app. change (length (cs "/pgxs/src/makefiles/pgxs.mk")) with 27. lia.
Qed.

Lemma pgxs_is_pkglibdir_with_suffix_witness :
  exists g' pkglib,
    get_configdata linux_build default_port (fun _ => x00) postgres_globals = Some g' /\
    value_of (ConfigData g') 7 = Some pkglib /\
    value_of (ConfigData g') 12
    = Some (firstn (MAXPGPATH linux_build - 1) (pkglib ++ cs "/pgxs/src/makefiles/pgxs.mk")) /\
    (length pkglib + 27 < MAXPGPATH linux_build ->
     value_of (ConfigData g') 12 = Some (pkglib ++ cs "/pgxs/src/makefiles/pgxs.mk")).
Proof.
  apply (pgxs_is_pkglibdir_with_suffix linux_build default_port (fun _ => x00)
           postgres_globals linux_build_ok default_port_ok postgres_globals_ok).
  reflexivity.
Defined.

(** On Windows the two settings are cleaned up one by one: where only the
    library directory has a short name, PKGLIBDIR is the short name and PGXS
    is built on the long one. *)
Example pgxs_keeps_the_long_name :
  exists g',
    get_configdata windows_build program_files_port (fun _ => x00) postgres_exe_globals
    = Some g' /\
    value_of (ConfigData g') 0 = Some (cs "C:/Program Files/PostgreSQL/9.0/bin") /\
    value_of (ConfigData g') 7 = Some (cs "C:/PROGRA~1/POSTGR~1/9.0/lib") /\
    value_of (ConfigData g') 12
    = Some (cs "C:/Program Files/PostgreSQL/9.0/lib/pgxs/src/makefiles/pgxs.mk").
Proof. eexists. split; [vm_compute; reflexivity|]. repeat split. Qed.




(** C5. After [get_configdata] the VERSION setting is "PostgreSQL " followed
    by the version string of the build, and it is not "not recorded",
    whichever optional macros the build defines. *)
Theorem version_is_product_and_version (B : Build) (P : Port) (stack : nat -> byte)
        (g : globals) :
  BuildOK B -> PortOK B P -> GlobalsOK B g ->
  exists g',
    get_configdata B P stack g = Some g' /\
    value_of (ConfigData g') 21 = Some (cs "PostgreSQL " ++ PG_VERSION B) /\
    value_of (ConfigData g') 21 <> Some (cs "not recorded").
Proof.
  intros HB HP Hg.
  rewrite (get_configdata_fills B P HB HP stack g Hg).
  eexists. split; [reflexivity|].
  cbn [with_ConfigData ConfigData].
  rewrite value_of_fill.
  - cbn [settings nth_error]. split; [reflexivity|]. discriminate.
  - cbn [settings length]. lia.
  - rewrite (names_length _ (names_fixed B g Hg)). cbn [settings length]. lia.
Qed.

Lemma version_is_product_and_version_witness :
  exists g',
    get_configdata linux_build default_port (fun _ => x00) postgres_globals = Some g' /\
    value_of (ConfigData g') 21 = Some (cs "PostgreSQL " ++ PG_VERSION linux_build) /\
    value_of (ConfigData g') 21 <> Some (cs "not recorded").
Proof.
  apply (version_is_product_and_version linux_build default_port (fun _ => x00)
           postgres_globals linux_build_ok default_port_ok postgres_globals_ok).
Defined.

(** C6. After [get_configdata], each of the entries 13 to 20 (CONFIGURE, CC,
    CPPFLAGS, CFLAGS, CFLAGS_SL, LDFLAGS, LDFLAGS_SL, LIBS) holds the string
    of its macro when the build defines the macro, and "not recorded"
    otherwise. *)
Theorem optional_macro_or_not_recorded (B : Build) (P : Port) (stack : nat -> byte)
        (g : globals) :
  BuildOK B -> PortOK B P -> GlobalsOK B g ->
  exists g',
    get_configdata B P stack g = Some g' /\
    forall i VAL,
      In (i, VAL) [ (13, VAL_CONFIGURE B); (14, VAL_CC B); (15, VAL_CPPFLAGS B);
                    (16, VAL_CFLAGS B); (17, VAL_CFLAGS_SL B); (18, VAL_LDFLAGS B);
                    (19, VAL_LDFLAGS_SL B); (20, VAL_LIBS B) ] ->
      value_of (ConfigData g') i
      = Some (match VAL with
              | Some embedded => embedded
              | None => cs "not recorded"
              end).
Proof.
  intros HB HP Hg.
  rewrite (get_configdata_fills B P HB HP stack g Hg).
  eexists. split; [reflexivity|].
  cbn [with_ConfigData ConfigData].
  pose proof (names_length _ (names_fixed B g Hg)) as Hlen.
  intros i VAL Hin. cbn [In] in Hin.
  repeat destruct Hin as [Hin|Hin]; try contradiction; injection Hin as <- <-;
    (rewrite value_of_fill by (cbn [settings length]; lia)); reflexivity.
Qed.

Lemma optional_macro_or_not_recorded_witness :
  exists g',
    get_configdata linux_build default_port (fun _ => x00) postgres_globals = Some g' /\
    forall i VAL,
      In (i, VAL) [ (13, VAL_CONFIGURE linux_build); (14, VAL_CC linux_build);
                    (15, VAL_CPPFLAGS linux_build); (16, VAL_CFLAGS linux_build);
                    (17, VAL_CFLAGS_SL linux_build); (18, VAL_LDFLAGS linux_build);
                    (19, VAL_LDFLAGS_SL linux_build); (20, VAL_LIBS linux_build) ] ->
      value_of (ConfigData g') i
      = Some (match VAL with
              | Some embedded => embedded
              | None => cs "not recorded"
              end).
Proof.
  apply (optional_macro_or_not_recorded linux_build default_port (fun _ => x00)
           postgres_globals linux_build_ok default_port_ok postgres_globals_ok).
Defined.

Lemma short_bindir_port_ok : PortOK windows_build short_bindir_port.
Proof.
  split.
  - intros rule Hin exe _. cbn [In] in Hin.
    repeat destruct Hin as [Hin|Hin]; try contradiction; subst rule;
      (split; [reflexivity|apply Nat.ltb_lt; reflexivity]).
  - intros s short H. cbn [GetShortPathName short_bindir_port] in H.
    destruct (list_eq_dec byte_eq_dec s _); [|discriminate].
    injection H as <-. split; [reflexivity|apply Nat.ltb_lt; reflexivity].
Qed.

(** C7, as stated, fails: on a Windows build [cleanup_path] replaces the
    stripped path by its short name.  For the executable
    "C:/Program Files/PostgreSQL/9.0/bin/postgres.exe", whose directory has
    the short name "C:\PROGRA~1\POSTGR~1\9.0\bin", BINDIR is
    "C:/PROGRA~1/POSTGR~1/9.0/bin" and not the path without its last
    segment. *)
Lemma bindir_is_the_short_name :
  PortOK windows_build short_bindir_port /\
  GlobalsOK windows_build postgres_exe_globals /\
  my_exec_path postgres_exe_globals
  = cs "C:/Program Files/PostgreSQL/9.0/bin" ++ x2f :: cs "postgres.exe" /\
  slash_free (cs "postgres.exe") = true /\
  exists g',
    get_configdata windows_build short_bindir_port (fun _ => x00) postgres_exe_globals
    = Some g' /\
    value_of (ConfigData g') 0 = Some (cs "C:/PROGRA~1/POSTGR~1/9.0/bin") /\
    value_of (ConfigData g') 0 <> Some (cs "C:/Program Files/PostgreSQL/9.0/bin").
Proof.
  split; [exact short_bindir_port_ok|].
  split; [split; [split; [reflexivity|apply Nat.ltb_lt; reflexivity]|reflexivity]|].
  split; [reflexivity|]. split; [reflexivity|].
  eexists. split; [vm_compute; reflexivity|].
  split; [reflexivity|]. discriminate.
Qed.

(** C7, amended. On a build without the Windows path clean-up, BINDIR is the
    executable path without its last segment and the slash before it; for
    "/usr/local/pgsql/bin/postgres" it is "/usr/local/pgsql/bin". *)
Theorem bindir_strips_last_segment (B : Build) (P : Port) (stack : nat -> byte)
        (g : globals) :
  BuildOK B -> PortOK B P -> GlobalsOK B g -> WIN32 B = false ->
  exists g',
    get_configdata B P stack g = Some g' /\
    (forall dir base,
        my_exec_path g = dir ++ x2f :: base -> slash_free base = true ->
        value_of (ConfigData g') 0 = Some dir) /\
    (my_exec_path g = cs "/usr/local/pgsql/bin/postgres" ->
     value_of (ConfigData g') 0 = Some (cs "/usr/local/pgsql/bin")).
Proof.
  intros HB HP Hg Hwin.
  rewrite (get_configdata_fills B P HB HP stack g Hg).
  eexists. split; [reflexivity|].
  cbn [with_ConfigData ConfigData].
  pose proof (names_length _ (names_fixed B g Hg)) as Hlen.
  rewrite value_of_fill by (cbn [settings length]; lia).
  cbn [settings nth_error]. unfold cleanup_string. rewrite Hwin.
  split.
  - intros dir base -> Hbase. rewrite strip_last_segment_app by assumption. reflexivity.
  - intros ->. reflexivity.
Qed.

Lemma bindir_strips_last_segment_witness :
  exists g',
    get_configdata linux_build default_port (fun _ => x00) postgres_globals = Some g' /\
    (forall dir base,
        my_exec_path postgres_globals = dir ++ x2f :: base -> slash_free base = true ->
        value_of (ConfigData g') 0 = Some dir) /\
    (my_exec_path postgres_globals = cs "/usr/local/pgsql/bin/postgres" ->
     value_of (ConfigData g') 0 = Some (cs "/usr/local/pgsql/bin")).
Proof.
  apply (bindir_strips_last_segment linux_build default_port (fun _ => x00)
           postgres_globals linux_build_ok default_port_ok postgres_globals_ok).
  reflexivity.
Defined.

(** C9. A second [get_configdata], with [my_exec_path] and the build
    unchanged, leaves the globals exactly as the first left them: all 22
    settings are the same strings. *)
Theorem get_configdata_idempotent (B : Build) (P : Port) (stack1 stack2 : nat -> byte)
        (g : globals) :
  BuildOK B -> PortOK B P -> GlobalsOK B g ->
  exists g1,
    get_configdata B P stack1 g = Some g1 /\
    get_configdata B P stack2 g1 = Some g1.
Proof.
  intros HB HP Hg.
  destruct (get_configdata_keeps_globals_ok B P HB HP stack1 g Hg) as (g1 & E1 & Hg1 & Hexe).
  exists g1. split; [exact E1|].
  rewrite (get_configdata_fills B P HB HP stack2 g1 Hg1).
  rewrite (get_configdata_fills B P HB HP stack1 g Hg) in E1.
  injection E1 as <-.
  cbn [with_ConfigData ConfigData my_exec_path]. rewrite fill_fill. reflexivity.
Qed.

Lemma get_configdata_idempotent_witness :
  exists g1,
    get_configdata linux_build default_port (fun _ => x00) postgres_globals = Some g1 /\
    get_configdata linux_build default_port (fun _ => xff) g1 = Some g1.
Proof.
  apply (get_configdata_idempotent linux_build default_port (fun _ => x00) (fun _ => xff)
           postgres_globals linux_build_ok default_port_ok postgres_globals_ok).
Defined.

(** * Further properties of conf_strlcat *)

(** The call on a buffer whose scan stops before [siz], with the buffer
    split at the terminator the scan finds. *)
Lemma conf_strlcat_room (SIZE_MAX : Z) (dst t tail : list byte) (siz : nat) :
  nul_free t = true ->
  siz <= length dst ->
  (Z.of_nat (length dst) + Z.of_nat (length t) <= SIZE_MAX)%Z ->
  strnlen dst siz < siz ->
  exists s0 rest0,
    dst = s0 ++ x00 :: rest0 /\
    nul_free s0 = true /\
    s0 = firstn (strnlen dst siz) dst /\
    length s0 = strnlen dst siz /\
    conf_strlcat SIZE_MAX dst (t ++ x00 :: tail) (Z.of_nat siz)
    = Some ((s0 ++ firstn (siz - length s0 - 1) t)
              ++ x00 :: skipn (min (siz - length s0 - 1) (length t)) rest0,
            Z.of_nat (length s0 + length t)).
Proof.
  intros Ht Hcap Hmax Hlt.
  destruct (strnlen_split dst siz Hcap Hlt) as [Hfree Hsplit].
  pose proof (strnlen_le dst siz) as Hle.
  exists (firstn (strnlen dst siz) dst), (skipn (S (strnlen dst siz)) dst).
  assert (Hs0 : length (firstn (strnlen dst siz) dst) = strnlen dst siz)
    by (rewrite length_firstn; lia).
  repeat split; trivial.
  set (s0 := firstn (strnlen dst siz) dst) in *.
  set (rest0 := skipn (S (strnlen dst siz)) dst) in *.
  rewrite Hsplit at 1.
  rewrite (conf_strlcat_string SIZE_MAX s0 rest0 t tail siz Hfree Ht)
    by (rewrite <- ?Hsplit; lia).
  rewrite size_t_small by lia. do 2 f_equal. lia.
Qed.

(** The call on a buffer with no terminator among its first [siz] bytes. *)
Lemma conf_strlcat_no_room (SIZE_MAX : Z) (dst t tail : list byte) (siz : nat) :
  nul_free t = true ->
  siz <= length dst ->
  (Z.of_nat (length dst) + Z.of_nat (length t) <= SIZE_MAX)%Z ->
  strnlen dst siz = siz ->
  conf_strlcat SIZE_MAX dst (t ++ x00 :: tail) (Z.of_nat siz)
  = Some (dst, Z.of_nat (siz + length t)).
Proof.
  intros Ht Hcap Hmax Hfull.
  unfold conf_strlcat. rewrite find_end_strnlen by lia.
  rewrite Hfull. cbn [Nat.add]. rewrite Z.sub_diag.
  unfold size_t at 1. rewrite Z.mod_0_l by lia. cbn [Z.eqb].
  unfold strlen. rewrite c_string_app by assumption. cbn [option_map].
  rewrite size_t_small by lia. do 2 f_equal. lia.
Qed.

(** X1. When the destination string ends before [siz], the string left in
    the buffer has [min (dlen + strlen(src)) (siz - 1)] characters, and the
    returned value is below [siz] exactly when the buffer holds the whole
    concatenation: comparing the result with [siz] detects truncation. *)
Theorem conf_strlcat_reports_truncation (SIZE_MAX : Z) (dst t tail : list byte) (siz : nat) :
  nul_free t = true ->
  siz <= length dst ->
  (Z.of_nat (length dst) + Z.of_nat (length t) <= SIZE_MAX)%Z ->
  strnlen dst siz < siz ->
  exists dst' r s',
    conf_strlcat SIZE_MAX dst (t ++ x00 :: tail) (Z.of_nat siz) = Some (dst', r) /\
    c_string dst' = Some s' /\
    length s' = min (strnlen dst siz + length t) (siz - 1) /\
    ((r < Z.of_nat siz)%Z <-> s' = firstn (strnlen dst siz) dst ++ t).
Proof.
  intros Ht Hcap Hmax Hlt.
  destruct (conf_strlcat_room SIZE_MAX dst t tail siz Ht Hcap Hmax Hlt)
    as (s0 & rest0 & Hsplit & Hfree & Hs0 & Hlen & E).
  rewrite E. rewrite <- Hs0, <- Hlen.
  do 3 eexists. split; [reflexivity|]. split.
  - apply c_string_app, nul_free_app. split; [exact Hfree|apply nul_free_firstn, Ht].
  - split.
    + rewrite length_app, length_firstn. lia.
    + split.
      * intros Hr. f_equal. apply firstn_all2. lia.
      * intros Heq. apply app_inv_head in Heq.
        apply (f_equal (@length byte)) in Heq. rewrite length_firstn in Heq. lia.
Qed.

Lemma conf_strlcat_reports_truncation_witness :
  exists dst' r s',
    conf_strlcat (2 ^ 64 - 1) (lit (cs "ab") ++ cs "zzzzzz") (cs "cdefgh" ++ [x00]) 6
    = Some (dst', r) /\
    c_string dst' = Some s' /\
    length s' = min (strnlen (lit (cs "ab") ++ cs "zzzzzz") 6 + length (cs "cdefgh")) (6 - 1) /\
    ((r < 6)%Z
     <-> s' = firstn (strnlen (lit (cs "ab") ++ cs "zzzzzz") 6) (lit (cs "ab") ++ cs "zzzzzz")
              ++ cs "cdefgh").
Proof.
  apply (conf_strlcat_reports_truncation (2 ^ 64 - 1) (lit (cs "ab") ++ cs "zzzzzz")
           (cs "cdefgh") [] 6).
  - reflexivity.
  - simpl. lia.
  - vm_compute. discriminate.
  - simpl. lia.
Defined.

(** X2. Appending the empty string changes no byte of the destination and
    returns the length the scan finds, whether or not the destination is
    terminated within [siz]. *)
Theorem conf_strlcat_empty_source (SIZE_MAX : Z) (dst tail : list byte) (siz : nat) :
  siz <= length dst ->
  (Z.of_nat (length dst) <= SIZE_MAX)%Z ->
  conf_strlcat SIZE_MAX dst (x00 :: tail) (Z.of_nat siz)
  = Some (dst, Z.of_nat (strnlen dst siz)).
Proof.
  intros Hcap Hmax.
  pose proof (strnlen_le dst siz) as Hle.
  destruct (Nat.lt_ge_cases (strnlen dst siz) siz) as [Hlt|Hge].
  - destruct (conf_strlcat_room SIZE_MAX dst [] tail siz eq_refl Hcap
                ltac:(cbn [length]; lia) Hlt)
      as (s0 & rest0 & Hsplit & Hfree & Hs0 & Hlen & E).
    cbn [app] in E. rewrite E. rewrite firstn_nil, app_nil_r. cbn [length].
    rewrite Nat.min_0_r. cbn [skipn]. rewrite <- Hsplit, Hlen.
    do 3 f_equal. lia.
  - pose proof (conf_strlcat_no_room SIZE_MAX dst [] tail siz eq_refl Hcap
                  ltac:(cbn [length]; lia) ltac:(lia)) as E.
    cbn [app length] in E. rewrite E. do 3 f_equal. lia.
Qed.

Lemma conf_strlcat_empty_source_witness :
  conf_strlcat (2 ^ 64 - 1) (lit (cs "ab") ++ cs "zzzzzz") [x00] 6
  = Some (lit (cs "ab") ++ cs "zzzzzz", 2%Z).
Proof.
  apply (conf_strlcat_empty_source (2 ^ 64 - 1) (lit (cs "ab") ++ cs "zzzzzz") [] 6).
  - simpl. lia.
  - vm_compute. discriminate.
Defined.

(** X3. Two appends in a row leave the buffer byte for byte as one append of
    the concatenated sources does; and when the first append reports no
    truncation, the second returns what the single append returns. *)
Theorem conf_strlcat_twice (SIZE_MAX : Z) (dst t1 t2 tail1 tail2 tail : list byte)
        (siz : nat) :
  nul_free t1 = true ->
  nul_free t2 = true ->
  siz <= length dst ->
  (Z.of_nat (length dst) + Z.of_nat (length t1) + Z.of_nat (length t2) <= SIZE_MAX)%Z ->
  exists dst1 r1 dst2 r2 r12,
    conf_strlcat SIZE_MAX dst (t1 ++ x00 :: tail1) (Z.of_nat siz) = Some (dst1, r1) /\
    conf_strlcat SIZE_MAX dst1 (t2 ++ x00 :: tail2) (Z.of_nat siz) = Some (dst2, r2) /\
    conf_strlcat SIZE_MAX dst ((t1 ++ t2) ++ x00 :: tail) (Z.of_nat siz) = Some (dst2, r12) /\
    ((r1 < Z.of_nat siz)%Z -> r2 = r12).
Proof.
  intros Ht1 Ht2 Hcap Hmax.
  assert (Ht12 : nul_free (t1 ++ t2) = true) by (apply nul_free_app; auto).
  pose proof (strnlen_le dst siz) as Hle.
  destruct (Nat.lt_ge_cases (strnlen dst siz) siz) as [Hlt|Hge].
  - destruct (strnlen_split dst siz Hcap Hlt) as [Hfree Hsplit].
    set (s0 := firstn (strnlen dst siz) dst) in *.
    set (rest0 := skipn (S (strnlen dst siz)) dst) in *.
    assert (Hs0 : length s0 = strnlen dst siz) by (unfold s0; rewrite length_firstn; lia).
    clearbody s0 rest0. subst dst.
    rewrite length_app in Hcap, Hmax. cbn [length] in Hcap, Hmax.
    remember (siz - length s0 - 1) as m eqn:Hm.
    remember (s0 ++ firstn m t1) as s1 eqn:Hs1.
    assert (Hfree1 : nul_free s1 = true).
    { subst s1. apply nul_free_app. split; [exact Hfree|apply nul_free_firstn, Ht1]. }
    assert (Hlen1 : length s1 = length s0 + min m (length t1)).
    { subst s1. rewrite length_app, length_firstn. reflexivity. }
    pose proof (conf_strlcat_string SIZE_MAX s0 rest0 t1 tail1 siz Hfree Ht1
                  ltac:(lia) ltac:(rewrite length_app; cbn [length]; lia) ltac:(lia)) as E1.
    pose proof (conf_strlcat_string SIZE_MAX s0 rest0 (t1 ++ t2) tail siz Hfree Ht12
                  ltac:(lia) ltac:(rewrite length_app; cbn [length]; lia) ltac:(lia)) as E12.
    pose proof (conf_strlcat_string SIZE_MAX s1 (skipn (min m (length t1)) rest0) t2 tail2
                  siz Hfree1 Ht2 ltac:(lia)
                  ltac:(rewrite length_app; cbn [length]; rewrite length_skipn; lia)
                  ltac:(lia)) as E2.
    cbv zeta in E1, E12, E2. rewrite <- Hm in E1, E12. rewrite <- Hs1 in E1.
    rewrite size_t_small in E1 by lia.
    rewrite size_t_small in E12 by (rewrite length_app; lia).
    rewrite size_t_small in E2 by lia.
    do 5 eexists. split; [exact E1|]. split; [exact E2|]. split.
    + rewrite E12. apply f_equal. apply f_equal2; [|reflexivity].
      symmetry. f_equal.
      * rewrite Hs1 at 1. rewrite <- app_assoc. f_equal.
        rewrite firstn_app. do 2 f_equal. lia.
      * f_equal. rewrite skipn_skipn, length_app. f_equal. lia.
    + intros Hr. rewrite length_app. lia.
  - assert (Hfull : strnlen dst siz = siz) by lia.
    pose proof (conf_strlcat_no_room SIZE_MAX dst t1 tail1 siz Ht1 Hcap ltac:(lia) Hfull)
      as E1.
    pose proof (conf_strlcat_no_room SIZE_MAX dst t2 tail2 siz Ht2 Hcap ltac:(lia) Hfull)
      as E2.
    pose proof (conf_strlcat_no_room SIZE_MAX dst (t1 ++ t2) tail siz Ht12 Hcap
                  ltac:(rewrite length_app; lia) Hfull) as E12.
    do 5 eexists. split; [exact E1|]. split; [exact E2|]. split; [exact E12|].
    intros Hr. lia.
Qed.

Lemma conf_strlcat_twice_witness :
  exists dst1 r1 dst2 r2 r12,
    conf_strlcat (2 ^ 64 - 1) (lit (cs "ab") ++ cs "zzzzzz") (cs "cd" ++ x00 :: []) 8
    = Some (dst1, r1) /\
    conf_strlcat (2 ^ 64 - 1) dst1 (cs "efgh" ++ x00 :: []) 8 = Some (dst2, r2) /\
    conf_strlcat (2 ^ 64 - 1) (lit (cs "ab") ++ cs "zzzzzz")
      ((cs "cd" ++ cs "efgh") ++ x00 :: []) 8 = Some (dst2, r12) /\
    ((r1 < 8)%Z -> r2 = r12).
Proof.
  apply (conf_strlcat_twice (2 ^ 64 - 1) (lit (cs "ab") ++ cs "zzzzzz")
           (cs "cd") (cs "efgh") [] [] [] 8).
  - reflexivity.
  - reflexivity.
  - simpl. lia.
  - vm_compute. discriminate.
Defined.

(** * Further properties of the emission loop and of cleanup_path *)

(** X4. The loop of [pg_config] appends one tuple per entry, in the order of
    the array, up to the first entry without a name; what follows that entry
    is never read, and the tuples already in the store are kept. *)
Theorem emit_stops_at_first_nameless (named : list configdata) (sentinel : configdata)
        (rest : list configdata) (tupstore : Tuplestorestate) :
  Forall (fun e => name e <> None) named ->
  name sentinel = None ->
  emit (named ++ sentinel :: rest) tupstore
  = Some (tupstore ++ map (fun e => (name e, setting e)) named).
Proof.
  intros Hnamed Hsentinel. revert tupstore.
  induction Hnamed as [|e named He _ IH]; intros tupstore.
  - cbn [app emit map]. rewrite Hsentinel, app_nil_r. reflexivity.
  - cbn [app emit map]. destruct (name e) as [n|] eqn:Hn; [|contradiction].
    unfold tuplestore_puttuple, BuildTupleFromCStrings.
    rewrite IH, <- app_assoc. reflexivity.
Qed.

Lemma emit_stops_at_first_nameless_witness :
  emit ([ {| name := Some (cs "CC"); setting := Some (cs "gcc") |};
          {| name := Some (cs "LIBS"); setting := None |} ]
          ++ {| name := None; setting := Some (cs "unused") |}
          :: [ {| name := Some (cs "VERSION"); setting := None |} ])
       [ (Some (cs "BINDIR"), Some (cs "/bin")) ]
  = Some ([ (Some (cs "BINDIR"), Some (cs "/bin")) ]
            ++ map (fun e => (name e, setting e))
                 [ {| name := Some (cs "CC"); setting := Some (cs "gcc") |};
                   {| name := Some (cs "LIBS"); setting := None |} ]).
Proof.
  apply (emit_stops_at_first_nameless
           [ {| name := Some (cs "CC"); setting := Some (cs "gcc") |};
             {| name := Some (cs "LIBS"); setting := None |} ]
           {| name := None; setting := Some (cs "unused") |}
           [ {| name := Some (cs "VERSION"); setting := None |} ]
           [ (Some (cs "BINDIR"), Some (cs "/bin")) ]).
  - repeat constructor; discriminate.
  - reflexivity.
Defined.

(** X5. On a Windows build, whatever [GetShortPathName] does within its
    contract, [cleanup_path] returns, keeps the size of the buffer and leaves
    in it a string without any backslash. *)
Theorem cleanup_path_leaves_no_backslash (B : Build) (P : Port) (s rest : list byte) :
  PortOK B P ->
  WIN32 B = true ->
  nul_free s = true ->
  length (s ++ x00 :: rest) = MAXPGPATH B ->
  exists path' s',
    cleanup_path B P (s ++ x00 :: rest) = Some path' /\
    length path' = MAXPGPATH B /\
    c_string path' = Some s' /\
    ~ In x5c s'.
Proof.
  intros HP Hwin Hfree Hlen.
  assert (Hholds : holds B (s ++ x00 :: rest) s).
  { repeat split; trivial. exists rest. reflexivity. }
  destruct (holds_cleanup B P HP _ _ Hholds) as (path' & E & Hholds').
  exists path', (cleanup_string B P s). split; [exact E|].
  split; [apply Hholds'|]. split.
  - apply (holds_pstrdup B path' _ Hholds').
  - unfold cleanup_string. rewrite Hwin. intros Hin.
    apply in_map_iff in Hin. destruct Hin as (c & Hc & _).
    destruct (Byte.eqb c x5c) eqn:Heq; [discriminate|].
    subst c. discriminate.
Qed.

(** X6. On a Windows build, when [GetShortPathName] fails, [cleanup_path]
    only turns the backslashes of the string into slashes: the other
    characters, the terminator and the bytes after it stay as they were. *)
Theorem cleanup_path_failed_resolution (B : Build) (P : Port) (s rest : list byte) :
  WIN32 B = true ->
  nul_free s = true ->
  GetShortPathName P s = None ->
  cleanup_path B P (s ++ x00 :: rest)
  = Some (map (fun c => if Byte.eqb c x5c then x2f else c) s ++ x00 :: rest).
Proof.
  intros Hwin Hfree Hfail. unfold cleanup_path.
  rewrite Hwin, (c_string_app s rest Hfree), Hfail.
  apply backslash_to_slash_string, Hfree.
Qed.

Lemma cleanup_path_failed_resolution_witness :
  cleanup_path windows_build program_files_port
    (cs "C:\Program Files\PostgreSQL\9.0\doc" ++ x00 :: cs "junk")
  = Some (map (fun c => if Byte.eqb c x5c then x2f else c)
            (cs "C:\Program Files\PostgreSQL\9.0\doc") ++ x00 :: cs "junk").
Proof.
  apply (cleanup_path_failed_resolution windows_build program_files_port
           (cs "C:\Program Files\PostgreSQL\9.0\doc") (cs "junk"));
    reflexivity.
Defined.

Lemma program_files_port_ok : PortOK windows_build program_files_port.
Proof.
  split.
  - intros rule Hin exe _. cbn [In] in Hin.
    repeat destruct Hin as [Hin|Hin]; try contradiction; subst rule;
      (split; [reflexivity|apply Nat.ltb_lt; reflexivity]).
  - intros s short H. cbn [GetShortPathName program_files_port] in H.
    destruct (list_eq_dec byte_eq_dec s _); [|discriminate].
    injection H as <-. split; [reflexivity|apply Nat.ltb_lt; reflexivity].
Qed.

Lemma cleanup_path_leaves_no_backslash_witness :
  exists path' s',
    cleanup_path windows_build program_files_port
      (cs "C:\Program Files\PostgreSQL\9.0\lib" ++ x00 :: repeat x41 988) = Some path' /\
    length path' = MAXPGPATH windows_build /\
    c_string path' = Some s' /\
    ~ In x5c s'.
Proof.
  apply (cleanup_path_leaves_no_backslash windows_build program_files_port
           (cs "C:\Program Files\PostgreSQL\9.0\lib") (repeat x41 988)
           program_files_port_ok);
    reflexivity.
Defined.

(** * Further properties of get_configdata *)

Lemma path_string_strip (B : Build) (s : list byte) :
  path_string B s -> path_string B (strip_last_segment s).
Proof.
  intros [Hfree Hfit]. unfold strip_last_segment.
  destruct (dirname s) as [d|] eqn:Hd; [|split; assumption].
  destruct (dirname_split s d Hd) as [base ->].
  apply nul_free_app in Hfree. rewrite length_app in Hfit.
  split; [apply Hfree|lia].
Qed.

Lemma path_string_bounded_concat (B : Build) (s t : list byte) :
  path_string B s -> nul_free t = true -> path_string B (bounded_concat B s t).
Proof.
  intros [Hfree Hfit] Ht. unfold bounded_concat. split.
  - apply nul_free_firstn, nul_free_app. auto.
  - pose proof (firstn_le_length (MAXPGPATH B - 1) (s ++ t)). lia.
Qed.

Lemma path_string_cleanup (B : Build) (P : Port) (s : list byte) :
  PortOK B P -> path_string B s -> path_string B (cleanup_string B P s).
Proof.
  intros HP [Hfree Hfit]. unfold cleanup_string.
  destruct (WIN32 B); [|split; assumption].
  destruct (GetShortPathName P s) as [short|] eqn:Hs.
  - destruct (short_path_fits B P HP s short Hs) as [Hfree' Hfit'].
    split; [apply nul_free_slashes, Hfree'|rewrite length_map; lia].
  - split; [apply nul_free_slashes, Hfree|rewrite length_map; exact Hfit].
Qed.

Lemma relocated_port_ok : PortOK linux_build relocated_port.
Proof.
  split.
  - intros rule Hin exe Hexe.
    assert (Hrel : forall tail, nul_free (cs tail) = true ->
                                path_string linux_build (relocated tail exe)).
    { intros tail Htail. unfold relocated. split.
      - apply nul_free_firstn, nul_free_app. split; [|exact Htail].
        apply (path_string_strip linux_build), (path_string_strip linux_build), Hexe.
      - apply Nat.le_lt_trans with (m := 1023); [apply firstn_le_length|].
        apply Nat.ltb_lt. reflexivity. }
    cbn [In] in Hin.
    repeat destruct Hin as [Hin|Hin]; try contradiction; subst rule;
      apply Hrel; reflexivity.
  - intros s short H. discriminate.
Qed.

(** X7. When [my_exec_path] has no slash, [strrchr] finds nothing to cut and
    BINDIR is the executable path itself (on a build without the Windows
    clean-up). *)
Theorem bindir_without_slash (B : Build) (P : Port) (stack : nat -> byte) (g : globals) :
  BuildOK B -> PortOK B P -> GlobalsOK B g -> WIN32 B = false ->
  slash_free (my_exec_path g) = true ->
  exists g',
    get_configdata B P stack g = Some g' /\
    value_of (ConfigData g') 0 = Some (my_exec_path g).
Proof.
  intros HB HP Hg Hwin Hslash.
  rewrite (get_configdata_fills B P HB HP stack g Hg).
  eexists. split; [reflexivity|].
  cbn [with_ConfigData ConfigData].
  pose proof (names_length _ (names_fixed B g Hg)) as Hlen.
  rewrite value_of_fill by (cbn [settings length]; lia).
  cbn [settings nth_error]. unfold cleanup_string, strip_last_segment.
  rewrite Hwin, (dirname_slash_free _ Hslash). reflexivity.
Qed.

Lemma bindir_without_slash_witness :
  exists g',
    get_configdata linux_build default_port (fun _ => x00)
      {| my_exec_path := cs "postgres"; ConfigData := ConfigData_init;
         CurrentMemoryContext := 0 |} = Some g' /\
    value_of (ConfigData g') 0 = Some (cs "postgres").
Proof.
  apply (bindir_without_slash linux_build default_port (fun _ => x00)
           {| my_exec_path := cs "postgres"; ConfigData := ConfigData_init;
              CurrentMemoryContext := 0 |} linux_build_ok default_port_ok).
  - split; [apply short_string_is_path; reflexivity|reflexivity].
  - reflexivity.
  - reflexivity.
Defined.

(** X8. Entries 1 to 11 (DOCDIR, HTMLDIR, INCLUDEDIR, PKGINCLUDEDIR,
    INCLUDEDIR-SERVER, LIBDIR, PKGLIBDIR, LOCALEDIR, MANDIR, SHAREDIR,
    SYSCONFDIR) hold what the doc, html, include, pkginclude, includeserver,
    lib, pkglib, locale, man, share and etc rules of libpgport give for
    [my_exec_path], in that order: as given on a build without the Windows
    clean-up, cleaned up on a Windows build. *)
Theorem directories_follow_rules (B : Build) (P : Port) (stack : nat -> byte) (g : globals) :
  BuildOK B -> PortOK B P -> GlobalsOK B g ->
  exists g',
    get_configdata B P stack g = Some g' /\
    forall i rule,
      In (i, rule) [ (1, get_doc_path P); (2, get_html_path P); (3, get_include_path P);
                     (4, get_pkginclude_path P); (5, get_includeserver_path P);
                     (6, get_lib_path P); (7, get_pkglib_path P); (8, get_locale_path P);
                     (9, get_man_path P); (10, get_share_path P); (11, get_etc_path P) ] ->
      value_of (ConfigData g') i
      = Some (if WIN32 B
              then cleanup_string B P (rule (my_exec_path g))
              else rule (my_exec_path g)).
Proof.
  intros HB HP Hg.
  rewrite (get_configdata_fills B P HB HP stack g Hg).
  eexists. split; [reflexivity|].
  cbn [with_ConfigData ConfigData].
  pose proof (names_length _ (names_fixed B g Hg)) as Hlen.
  intros i rule Hin. cbn [In] in Hin.
  repeat destruct Hin as [Hin|Hin]; try contradiction; injection Hin as <- <-;
    (rewrite value_of_fill by (cbn [settings length]; lia));
    cbn [settings nth_error]; unfold cleanup_string; destruct (WIN32 B); reflexivity.
Qed.

Lemma directories_follow_rules_witness :
  exists g',
    get_configdata linux_build relocated_port (fun _ => x00) postgres_globals = Some g' /\
    forall i rule,
      In (i, rule) [ (1, get_doc_path relocated_port); (2, get_html_path relocated_port);
                     (3, get_include_path relocated_port);
                     (4, get_pkginclude_path relocated_port);
                     (5, get_includeserver_path relocated_port);
                     (6, get_lib_path relocated_port); (7, get_pkglib_path relocated_port);
                     (8, get_locale_path relocated_port); (9, get_man_path relocated_port);
                     (10, get_share_path relocated_port);
                     (11, get_etc_path relocated_port) ] ->
      value_of (ConfigData g') i
      = Some (if WIN32 linux_build
              then cleanup_string linux_build relocated_port
                     (rule (my_exec_path postgres_globals))
              else rule (my_exec_path postgres_globals)).
Proof.
  apply (directories_follow_rules linux_build relocated_port (fun _ => x00)
           postgres_globals linux_build_ok relocated_port_ok postgres_globals_ok).
Defined.

(** X9. Each of the 13 path settings (entries 0 to 12) is a string without
    NUL of fewer than [MAXPGPATH] bytes, on every build and whatever the path
    rules and [GetShortPathName] give within their contracts. *)
Theorem path_settings_fit (B : Build) (P : Port) (stack : nat -> byte) (g : globals) :
  BuildOK B -> PortOK B P -> GlobalsOK B g ->
  exists g',
    get_configdata B P stack g = Some g' /\
    forall i, i < 13 ->
      exists v,
        value_of (ConfigData g') i = Some v /\
        nul_free v = true /\
        length v < MAXPGPATH B.
Proof.
  intros HB HP Hg.
  rewrite (get_configdata_fills B P HB HP stack g Hg).
  eexists. split; [reflexivity|].
  cbn [with_ConfigData ConfigData].
  pose proof (names_length _ (names_fixed B g Hg)) as Hlen.
  pose proof (exec_path_ok B g Hg) as Hexe.
  assert (Hrule : forall rule,
             In rule [ get_doc_path P; get_html_path P; get_include_path P;
                       get_pkginclude_path P; get_includeserver_path P; get_lib_path P;
                       get_pkglib_path P; get_locale_path P; get_man_path P;
                       get_share_path P; get_etc_path P ] ->
             path_string B (cleanup_string B P (rule (my_exec_path g)))).
  { intros rule Hin. apply path_string_cleanup; [exact HP|].
    apply (rules_fill_path B P HP rule Hin), Hexe. }
  intros i Hi.
  rewrite value_of_fill by (cbn [settings length]; lia).
  do 13 (destruct i as [|i];
         [cbn [settings nth_error]; eexists; split; [reflexivity|];
          first [ apply Hrule; rule_listed
                | apply path_string_cleanup;
                  [exact HP
                  |first [ apply path_string_strip, Hexe
                         | apply path_string_bounded_concat;
                           [apply (rules_fill_path B P HP); [rule_listed|exact Hexe]
                           |reflexivity] ] ] ]
         |]).
  lia.
Qed.

Lemma path_settings_fit_witness :
  exists g',
    get_configdata linux_build relocated_port (fun _ => x00) deep_globals = Some g' /\
    forall i, i < 13 ->
      exists v,
        value_of (ConfigData g') i = Some v /\
        nul_free v = true /\
        length v < MAXPGPATH linux_build.
Proof.
  apply (path_settings_fit linux_build relocated_port (fun _ => x00) deep_globals
           linux_build_ok relocated_port_ok).
  split; [apply short_string_is_path; reflexivity|reflexivity].
Defined.

(** * Further properties of pg_config *)

(** X10. A call that returns hands back 22 rows, none with a NULL name or
    a NULL value. *)
Theorem rows_have_no_null (B : Build) (P : Port) (stack : nat -> byte)
        (rs : ReturnSetInfo) (g : globals) :
  BuildOK B -> PortOK B P -> GlobalsOK B g ->
  Z.land (allowedModes rs) (SFRM_Materialize B) <> 0%Z ->
  expectedDesc rs = Some [TEXTOID B; TEXTOID B] ->
  exists rs' g' rows,
    pg_config B P stack (Some rs) g = Returned rs' g' /\
    setResult rs' = Some rows /\
    length rows = 22 /\
    Forall (fun row => fst row <> None /\ snd row <> None) rows.
Proof.
  intros HB HP Hg Hmode Hdesc.
  destruct (pg_config_returns B P HB HP stack rs g Hg Hmode Hdesc) as (g' & Hcall & _).
  rewrite Hcall. do 3 eexists. split; [reflexivity|].
  cbn [setResult]. split; [reflexivity|]. split; [reflexivity|].
  unfold rows_of, settings. cbn [config_names map combine].
  repeat constructor; discriminate.
Qed.

Lemma rows_have_no_null_witness :
  exists rs' g' rows,
    pg_config linux_build default_port (fun _ => x00) (Some sql_call) postgres_globals
    = Returned rs' g' /\
    setResult rs' = Some rows /\
    length rows = 22 /\
    Forall (fun row => fst row <> None /\ snd row <> None) rows.
Proof.
  apply (rows_have_no_null linux_build default_port (fun _ => x00) sql_call
           postgres_globals linux_build_ok default_port_ok postgres_globals_ok).
  - vm_compute. discriminate.
  - reflexivity.
Defined.

(** X11. A call that returns has set [returnMode] to [SFRM_Materialize] and
    [setDesc] to the descriptor the caller expected, and has left
    [allowedModes], [expectedDesc] and the per-query context of [rsinfo] as
    they were. *)
Theorem pg_config_reports_materialize (B : Build) (P : Port) (stack : nat -> byte)
        (rs : ReturnSetInfo) (g : globals) :
  BuildOK B -> PortOK B P -> GlobalsOK B g ->
  Z.land (allowedModes rs) (SFRM_Materialize B) <> 0%Z ->
  expectedDesc rs = Some [TEXTOID B; TEXTOID B] ->
  exists rs' g',
    pg_config B P stack (Some rs) g = Returned rs' g' /\
    returnMode rs' = SFRM_Materialize B /\
    setDesc rs' = expectedDesc rs /\
    allowedModes rs' = allowedModes rs /\
    expectedDesc rs' = expectedDesc rs /\
    ecxt_per_query_memory rs' = ecxt_per_query_memory rs.
Proof.
  intros HB HP Hg Hmode Hdesc.
  destruct (pg_config_returns B P HB HP stack rs g Hg Hmode Hdesc) as (g' & Hcall & _).
  rewrite Hcall. do 2 eexists. split; [reflexivity|].
  cbn [returnMode setDesc allowedModes expectedDesc ecxt_per_query_memory].
  rewrite Hdesc. repeat split.
Qed.

Lemma pg_config_reports_materialize_witness :
  exists rs' g',
    pg_config linux_build default_port (fun _ => x00) (Some sql_call) postgres_globals
    = Returned rs' g' /\
    returnMode rs' = SFRM_Materialize linux_build /\
    setDesc rs' = expectedDesc sql_call /\
    allowedModes rs' = allowedModes sql_call /\
    expectedDesc rs' = expectedDesc sql_call /\
    ecxt_per_query_memory rs' = ecxt_per_query_memory sql_call.
Proof.
  apply (pg_config_reports_materialize linux_build default_port (fun _ => x00) sql_call
           postgres_globals linux_build_ok default_port_ok postgres_globals_ok).
  - vm_compute. discriminate.
  - reflexivity.
Defined.

(** X12. Two calls in a row, the second starting from the globals the first
    left and possibly from another caller, return the same rows, and the
    second leaves the globals exactly as the first did. *)
Theorem pg_config_twice (B : Build) (P : Port) (stack1 stack2 : nat -> byte)
        (rs1 rs2 : ReturnSetInfo) (g : globals) :
  BuildOK B -> PortOK B P -> GlobalsOK B g ->
  Z.land (allowedModes rs1) (SFRM_Materialize B) <> 0%Z ->
  expectedDesc rs1 = Some [TEXTOID B; TEXTOID B] ->
  Z.land (allowedModes rs2) (SFRM_Materialize B) <> 0%Z ->
  expectedDesc rs2 = Some [TEXTOID B; TEXTOID B] ->
  exists rs1' g1 rs2',
    pg_config B P stack1 (Some rs1) g = Returned rs1' g1 /\
    pg_config B P stack2 (Some rs2) g1 = Returned rs2' g1 /\
    setResult rs2' = setResult rs1'.
Proof.
  intros HB HP Hg Hmode1 Hdesc1 Hmode2 Hdesc2.
  destruct (pg_config_returns B P HB HP stack1 rs1 g Hg Hmode1 Hdesc1)
    as (g1 & Hcall1 & Hexe1 & Htbl1 & Hctx1).
  assert (Hg1 : GlobalsOK B g1).
  { split.
    - rewrite Hexe1. apply Hg.
    - rewrite Htbl1, fill_names. apply Hg. }
  destruct (pg_config_returns B P HB HP stack2 rs2 g1 Hg1 Hmode2 Hdesc2)
    as (g2 & Hcall2 & Hexe2 & Htbl2 & Hctx2).
  assert (Hsame : g2 = g1).
  { rewrite Hexe1, Htbl1, fill_fill, <- Htbl1 in Htbl2.
    destruct g1, g2. cbn in Hexe2, Htbl2, Hctx2. subst. reflexivity. }
  subst g2. do 3 eexists.
  split; [exact Hcall1|]. split; [exact Hcall2|].
  cbn [setResult]. rewrite Hexe1. reflexivity.
Qed.

Lemma pg_config_twice_witness :
  exists rs1' g1 rs2',
    pg_config linux_build default_port (fun _ => x00) (Some sql_call) postgres_globals
    = Returned rs1' g1 /\
    pg_config linux_build default_port (fun _ => xff) (Some sql_call) g1
    = Returned rs2' g1 /\
    setResult rs2' = setResult rs1'.
Proof.
  apply (pg_config_twice linux_build default_port (fun _ => x00) (fun _ => xff)
           sql_call sql_call postgres_globals
           linux_build_ok default_port_ok postgres_globals_ok).
  - vm_compute. discriminate.
  - reflexivity.
  - vm_compute. discriminate.
  - reflexivity.
Defined.

(** X13. Whenever a call raises an error, the caller's [rsinfo] is as it was
    given (no result set, no return mode), and the table and [my_exec_path]
    are as they were before the call; the error is [UnsupportedContext]
    exactly when the context does not allow a materialized set. *)
Theorem error_leaves_no_partial_result (B : Build) (P : Port) (stack : nat -> byte)
        (rsinfo rsinfo' : option ReturnSetInfo) (e : pg_error) (g g' : globals) :
  pg_config B P stack rsinfo g = Raised e rsinfo' g' ->
  rsinfo' = rsinfo /\
  ConfigData g' = ConfigData g /\
  my_exec_path g' = my_exec_path g /\
  (e = UnsupportedContext <-> ~ can_materialize B rsinfo).
Proof.
  unfold pg_config, can_materialize.
  destruct rsinfo as [rs|].
  - destruct (Z.eqb_spec (Z.land (allowedModes rs) (SFRM_Materialize B)) 0) as [E|E].
    + intros H. injection H as <- <- <-.
      split; [reflexivity|]. split; [reflexivity|]. split; [reflexivity|].
      split; [|reflexivity].
      intros _ (rs0 & Hrs & Hmode). injection Hrs as <-. contradiction.
    + destruct (expectedDesc rs) as [tupdesc|]; [|discriminate].
      destruct (incompatible B tupdesc).
      * intros H. injection H as <- <- <-.
        split; [reflexivity|]. split; [reflexivity|]. split; [reflexivity|].
        split; [discriminate|].
        intros Hno. exfalso. apply Hno. exists rs. auto.
      * destruct (get_configdata B P stack _) as [g1|]; [|discriminate].
        destruct (emit (ConfigData g1) []); discriminate.
  - intros H. injection H as <- <- <-.
    split; [reflexivity|]. split; [reflexivity|]. split; [reflexivity|].
    split; [|reflexivity].
    intros _ (rs0 & Hrs & _). discriminate.
Qed.

Lemma error_leaves_no_partial_result_witness :
  Some value_per_call = Some value_per_call /\
  ConfigData postgres_globals = ConfigData postgres_globals /\
  my_exec_path postgres_globals = my_exec_path postgres_globals /\
  (UnsupportedContext = UnsupportedContext
   <-> ~ can_materialize linux_build (Some value_per_call)).
Proof.
  apply (error_leaves_no_partial_result linux_build default_port (fun _ => x00)
           (Some value_per_call) (Some value_per_call) UnsupportedContext
           postgres_globals postgres_globals).
  reflexivity.
Defined.

(** X14. For a caller that supplies a row shape, the call returns rows
    exactly when its context allows a materialized set and the shape is two
    text columns. *)
Theorem returns_iff_compatible (B : Build) (P : Port) (stack : nat -> byte)
        (rs : ReturnSetInfo) (tupdesc : TupleDesc) (g : globals) :
  BuildOK B -> PortOK B P -> GlobalsOK B g ->
  expectedDesc rs = Some tupdesc ->
  (exists rs' g', pg_config B P stack (Some rs) g = Returned rs' g')
  <-> (Z.land (allowedModes rs) (SFRM_Materialize B) <> 0%Z /\
       tupdesc = [TEXTOID B; TEXTOID B]).
Proof.
  intros HB HP Hg Hdesc. split.
  - intros (rs' & g' & H). revert H. unfold pg_config.
    destruct (Z.eqb_spec (Z.land (allowedModes rs) (SFRM_Materialize B)) 0) as [E|E];
      [discriminate|].
    rewrite Hdesc.
    destruct (incompatible B tupdesc) eqn:Hinc; [discriminate|].
    intros _. split; [exact E|apply incompatible_iff, Hinc].
  - intros [Hmode ->].
    destruct (pg_config_returns B P HB HP stack rs g Hg Hmode Hdesc) as (g' & Hcall & _).
    eauto.
Qed.

Lemma returns_iff_compatible_witness :
  (exists rs' g',
      pg_config linux_build default_port (fun _ => x00) (Some sql_call) postgres_globals
      = Returned rs' g')
  <-> (Z.land (allowedModes sql_call) (SFRM_Materialize linux_build) <> 0%Z /\
       [25; 25]%Z = [TEXTOID linux_build; TEXTOID linux_build]).
Proof.
  apply (returns_iff_compatible linux_build default_port (fun _ => x00) sql_call
           [25; 25]%Z postgres_globals linux_build_ok default_port_ok postgres_globals_ok).
  reflexivity.
Defined.
